(** * jglsl_shader: the declaration extractor of [jglsl_shader_c]

    A shallow embedding of the scanner ([skip_ws], [next_tok]), the builtin
    type registry ([is_builtin_type]), the struct table builder
    ([parse_structures]), the declaration extractor ([parse_vars]) and the
    object around them (the registry of builtin types, [load], [finalize],
    [unload], the handle tables and the log) of [src/jglsl_shader.hpp], with
    the properties the specification states about them and further ones
    read off the code.

    Conventions of the embedding.
    - A [uint32_t] is a [Z]; every addition the source performs on one is
      written with [wrap32].  The pointer [pcode] is the offset [pcode - code],
      an unbounded [Z].
    - The source buffer is the list of the cells that may be read: index [i]
      is readable when [i < length code].  A C string is its characters
      followed by the terminator ([cstring]).  A read outside the cells is
      the outcome [Fault]; running the code on the bare cells below [len]
      therefore shows that no index [>= len] is touched.
    - Successive comparisons of one cell in one condition are one [read].
    - A [for] over the elements of a vector is a [map], an [existsb] or a
      [foldl]; the size of a vector is below [2 ^ 32].
    - What the graphics library answers is a parameter of the call that asks
      ([gl_compile], [gl_link]).
    - Every other [while] and [for] of the source is a [Fixpoint] on a counter of
      iterations; a loop that is started gets the budget [fuel].  A loop that
      exhausts its counter is the outcome [OutOfFuel]. *)

From Stdlib Require Import ZArith Ascii String List Bool Lia DecimalString.
From stdpp Require Import base option list gmap strings fin_maps.
Import ListNotations.

Local Open Scope Z_scope.

(** ** Outcomes of a run *)

Inductive outcome (A : Type) : Type :=
| Ret (a : A)
| Fault
| OutOfFuel.

Arguments Ret {A} a.
Arguments Fault {A}.
Arguments OutOfFuel {A}.

#[global] Instance outcome_bind : MBind outcome := fun A B k m =>
  match m with
  | Ret a => k a
  | Fault => Fault
  | OutOfFuel => OutOfFuel
  end.

#[global] Instance outcome_ret : MRet outcome := fun A a => Ret a.

(** ** Machine integers, characters and the buffer *)

Definition wrap32 (z : Z) : Z := z mod 2 ^ 32.

Definition buffer : Type := list ascii.

Definition NUL : ascii := Ascii.zero.

(** The cells of the C string [s]: its characters, then the terminator. *)
Definition cstring (s : string) : buffer := list_ascii_of_string s ++ [NUL].

(** [code[i]] *)
Definition read (code : buffer) (i : Z) : outcome ascii :=
  if i <? 0 then Fault
  else match nth_error code (Z.to_nat i) with
       | Some c => Ret c
       | None => Fault
       end.

Definition is_char (c d : ascii) : bool := Ascii.eqb c d.
Arguments is_char : simpl never.

Definition ch_slash : ascii := "/"%char.
Definition ch_star : ascii := "*"%char.
Definition ch_lf : ascii := "010"%char.
Definition ch_cr : ascii := "013"%char.
Definition ch_semi : ascii := ";"%char.
Definition ch_lbrace : ascii := "{"%char.
Definition ch_rbrace : ascii := "}"%char.
Definition ch_comma : ascii := ","%char.
Definition ch_lbracket : ascii := "["%char.
Definition ch_rbracket : ascii := "]"%char.

(** [isspace] in the C locale: space, and the controls 9 to 13; a
    character above 127 is not a blank. *)
Definition isspace (c : ascii) : bool :=
  let n := Z.of_nat (nat_of_ascii c) in
  (n =? 32) || ((9 <=? n) && (n <=? 13)).

(** ** Scanner *)

(** Line 99: [while ((ptr < len) && isspace(code[ptr])) ++ptr;] *)
Fixpoint skip_spaces (n : nat) (code : buffer) (ptr len : Z) : outcome Z :=
  match n with
  | O => OutOfFuel
  | S n' =>
      if ptr <? len then
        c ← read code ptr;
        if isspace c then skip_spaces n' code (wrap32 (ptr + 1)) len
        else Ret ptr
      else Ret ptr
  end.

(** Line 106: [while ((ptr < len) && ((code[ptr] != '\n') || (code[ptr] != '\r'))) ++ptr;] *)
Fixpoint skip_line_comment (n : nat) (code : buffer) (ptr len : Z) : outcome Z :=
  match n with
  | O => OutOfFuel
  | S n' =>
      if ptr <? len then
        c ← read code ptr;
        if negb (is_char c ch_lf) || negb (is_char c ch_cr)
        then skip_line_comment n' code (wrap32 (ptr + 1)) len
        else Ret ptr
      else Ret ptr
  end.

(** Line 110: [while ((ptr+1 < len) && ((code[ptr] != '*') && (code[ptr+1] != '/'))) ++ptr;] *)
Fixpoint skip_block_comment (n : nat) (code : buffer) (ptr len : Z) : outcome Z :=
  match n with
  | O => OutOfFuel
  | S n' =>
      if wrap32 (ptr + 1) <? len then
        c ← read code ptr;
        go ← (if negb (is_char c ch_star)
              then c1 ← read code (wrap32 (ptr + 1)); Ret (negb (is_char c1 ch_slash))
              else Ret false);
        if go : bool then skip_block_comment n' code (wrap32 (ptr + 1)) len
        else Ret ptr
      else Ret ptr
  end.

(** Lines 103-117: the comment branch of one round of [skip_ws]; the result
    is the new [ptr] and the new [done]. *)
Definition skip_comment (fuel : nat) (code : buffer) (ptr len : Z) : outcome (Z * bool) :=
  if wrap32 (ptr + 1) <? len then
    c ← read code ptr;
    if is_char c ch_slash then
      c1 ← read code (wrap32 (ptr + 1));
      if is_char c1 ch_slash then
        ptr1 ← skip_line_comment fuel code (wrap32 (ptr + 1)) len;
        Ret (ptr1, false)
      else
        if is_char c1 ch_star then
          ptr1 ← skip_block_comment fuel code (wrap32 (ptr + 2)) len;
          closed ← (if wrap32 (ptr1 + 1) <? len then
                      a ← read code ptr1;
                      if is_char a ch_star
                      then b ← read code (wrap32 (ptr1 + 1)); Ret (is_char b ch_slash)
                      else Ret false
                    else Ret false);
          Ret (if closed : bool then wrap32 (ptr1 + 2) else ptr1, false)
        else Ret (ptr, false)
    else Ret (ptr, true)
  else Ret (ptr, true).

(** Lines 95-118: [while ((!done) && (ptr < len)) { done = true; ... }] *)
Fixpoint skip_ws_loop (n fuel : nat) (code : buffer) (ptr len : Z) (done : bool)
  : outcome Z :=
  match n with
  | O => OutOfFuel
  | S n' =>
      if negb done && (ptr <? len) then
        ptr1 ← skip_spaces fuel code ptr len;
        '(ptr2, done') ← skip_comment fuel code ptr1 len;
        skip_ws_loop n' fuel code ptr2 len done'
      else Ret ptr
  end.

(** [skip_ws(code, offs, len)] *)
Definition skip_ws (fuel : nat) (code : buffer) (offs len : Z) : outcome Z :=
  skip_ws_loop fuel fuel code offs len false.

(** Lines 127-129: the loop of [next_tok]; [tok += code[ptr++]]. *)
Definition is_delim (c : ascii) : bool :=
  isspace c || is_char c ch_semi || is_char c ch_lbrace || is_char c ch_rbrace
  || is_char c ch_comma || is_char c ch_slash || is_char c ch_lbracket.

Fixpoint next_tok_loop (n : nat) (code : buffer) (tok : string) (ptr len : Z)
  : outcome (string * Z) :=
  match n with
  | O => OutOfFuel
  | S n' =>
      if ptr <? len then
        c ← read code ptr;
        if negb (is_delim c)
        then next_tok_loop n' code (tok +:+ String c EmptyString) (wrap32 (ptr + 1)) len
        else Ret (tok, ptr)
      else Ret (tok, ptr)
  end.

(** [next_tok(tok, code, offs, len)]: the token and the returned offset. *)
Definition next_tok (fuel : nat) (code : buffer) (offs len : Z) : outcome (string * Z) :=
  next_tok_loop fuel code EmptyString offs len.

(** ** Builtin type registry *)

(** [s.find(t) != std::string::npos] *)
Fixpoint str_contains (t s : string) : bool :=
  String.prefix t s
  || match s with
     | EmptyString => false
     | String _ s' => str_contains t s'
     end.

Definition is_builtin_type (s : string) (base_types complex_types : list string) : bool :=
  existsb (String.eqb s) base_types
  || existsb (fun t => str_contains t s) complex_types.

(** [import_std_builtin_types] *)
Definition std_builtin_types : list string :=
  ["int"; "uint"; "bool"; "float"; "double"; "atomic_uint"]%string.
Definition std_complex_builtin_types : list string :=
  ["vec"; "mat"; "image"; "sampler"]%string.

(** ** The C library's [strstr] and [std::string::c_str] *)

Fixpoint c_str (s : string) : string :=
  match s with
  | EmptyString => EmptyString
  | String c s' => if is_char c NUL then EmptyString else String c (c_str s')
  end.

(** Whether the cells start with the needle; the comparison stops at the
    first difference, so it never passes a terminator. *)
Fixpoint starts_with (needle cells : list ascii) : outcome bool :=
  match needle with
  | [] => Ret true
  | a :: needle' =>
      match cells with
      | [] => Fault
      | c :: cells' => if is_char c a then starts_with needle' cells' else Ret false
      end
  end.

Fixpoint strstr_cells (needle cells : list ascii) (p : Z) : outcome (option Z) :=
  m ← starts_with needle cells;
  if m : bool then Ret (Some p)
  else match cells with
       | [] => Fault
       | c :: rest => if is_char c NUL then Ret None else strstr_cells needle rest (p + 1)
       end.

(** [strstr(code + p, needle)], as the offset of the match from [code]. *)
Definition strstr (code : buffer) (p : Z) (needle : string) : outcome (option Z) :=
  if p <? 0 then Fault
  else strstr_cells (list_ascii_of_string needle) (drop (Z.to_nat p) code) p.

(** ** Struct table *)

(** [get_struct_field]: [structs.find(name)]. *)
Definition get_struct_field (name : string) (structs : gmap string (list string))
  : option (list string) := structs !! name.

(** [std::map::insert]: an existing key keeps its value. *)
Definition map_insert (k : string) (v : list string) (structs : gmap string (list string))
  : gmap string (list string) :=
  match structs !! k with
  | Some _ => structs
  | None => <[k := v]> structs
  end.

(** [tok + "." + struct_fld->at(f)], for every [f] in order. *)
Definition dotted (tok : string) (struct_fld : list string) : list string :=
  map (fun p => tok +:+ "." +:+ p) struct_fld.

(** How the body of a loop ends: [break], or on to the next round. *)
Inductive flow (A : Type) : Type :=
| Break (a : A)
| Next (a : A).
Arguments Break {A} a.
Arguments Next {A} a.

(** ** Struct table builder *)

(** Lines 231-232 and 308-309: [while ((offs < len) && (code[offs] != ']')) ++offs;] *)
Fixpoint skip_to_rbracket (n : nat) (code : buffer) (offs len : Z) : outcome Z :=
  match n with
  | O => OutOfFuel
  | S n' =>
      if offs <? len then
        c ← read code offs;
        if negb (is_char c ch_rbracket)
        then skip_to_rbracket n' code (wrap32 (offs + 1)) len
        else Ret offs
      else Ret offs
  end.

(** Lines 230-234 and 307-311, entered with [code[offs] == '[']. *)
Definition skip_array (fuel : nat) (code : buffer) (offs len : Z) : outcome Z :=
  offs1 ← skip_to_rbracket fuel code (wrap32 (offs + 1)) len;
  if offs1 <? len then
    c ← read code offs1;
    Ret (wrap32 (offs1 + (if is_char c ch_rbracket then 1 else 0)))
  else Ret offs1.

(** Lines 198-220: the type token of a field is read and its paths are
    pushed; [Break] is the [break] of lines 202 and 210. *)
Definition struct_field (fuel : nat) (structs : gmap string (list string))
    (base_types complex_types : list string) (code : buffer) (len offs : Z)
    (field_fields : list string) : outcome (flow (Z * list string)) :=
  '(tok, offs) ← next_tok fuel code offs len;
  if is_builtin_type tok base_types complex_types then
    offs ← skip_ws fuel code offs len;
    if len <=? offs then Ret (Break (offs, field_fields))
    else
      '(tok, offs) ← next_tok fuel code offs len;
      Ret (Next (offs, field_fields ++ [tok]))
  else
    match get_struct_field tok structs with
    | Some struct_fld =>
        offs ← skip_ws fuel code offs len;
        if len <=? offs then Ret (Break (offs, field_fields))
        else
          '(tok, offs) ← next_tok fuel code offs len;
          Ret (Next (offs, field_fields ++ dotted tok struct_fld))
    | None => Ret (Next (offs, field_fields ++ [tok]))
    end.

(** Lines 225-235: what follows a field. *)
Definition struct_field_end (fuel : nat) (code : buffer) (len offs : Z) : outcome Z :=
  c ← read code offs;
  if is_char c ch_comma then Ret (wrap32 (offs + 1))
  else if is_char c ch_semi then Ret (wrap32 (offs + 1))
  else if is_char c ch_lbracket then skip_array fuel code offs len
  else Ret offs.

(** Lines 191-236: [while ((offs < len)) { ... }], the body of a struct. *)
Fixpoint struct_body (n fuel : nat) (structs : gmap string (list string))
    (base_types complex_types : list string) (code : buffer) (len offs : Z)
    (field_fields : list string) : outcome (Z * list string) :=
  match n with
  | O => OutOfFuel
  | S n' =>
      if offs <? len then
        offs ← skip_ws fuel code offs len;
        if len <=? offs then Ret (offs, field_fields)
        else
          c ← read code offs;
          if is_char c ch_rbrace then Ret (offs, field_fields)
          else
            r ← struct_field fuel structs base_types complex_types code len offs field_fields;
            match r with
            | Break st => Ret st
            | Next (offs, field_fields) =>
                offs ← skip_ws fuel code offs len;
                if len <=? offs then Ret (offs, field_fields)
                else
                  offs ← struct_field_end fuel code len offs;
                  struct_body n' fuel structs base_types complex_types code len offs field_fields
            end
      else Ret (offs, field_fields)
  end.

(** Lines 171-188: from the match of [struct] at [p] to the first offset of
    the body; [None] is one of the [return]s of lines 173-188. *)
Definition struct_header (fuel : nat) (code : buffer) (len p : Z)
  : outcome (option (string * Z)) :=
  offs ← skip_ws fuel code (wrap32 (p + 6)) len;
  if len <=? offs then Ret None
  else
    '(field_name, offs) ← next_tok fuel code offs len;
    if len <=? offs then Ret None
    else
      offs ← skip_ws fuel code offs len;
      if len <=? offs then Ret None
      else
        c ← read code offs;
        if negb (is_char c ch_lbrace) then Ret None
        else
          offs ← skip_ws fuel code (wrap32 (offs + 1)) len;
          if len <=? offs then Ret None
          else Ret (Some (field_name, offs)).

(** Lines 238-239: the entry is committed when the body stopped at [}]. *)
Definition struct_commit (structs : gmap string (list string)) (code : buffer)
    (len offs : Z) (field_name : string) (field_fields : list string)
  : outcome (gmap string (list string)) :=
  if offs <? len then
    c ← read code offs;
    Ret (if is_char c ch_rbrace then map_insert field_name field_fields structs else structs)
  else Ret structs.

(** Lines 162-244: [for (uint32_t offs = 0; offs < len;) { ... }]. *)
Fixpoint parse_structures_loop (n fuel : nat) (structs : gmap string (list string))
    (base_types complex_types : list string) (code : buffer) (len pcode offs : Z)
  : outcome (gmap string (list string)) :=
  match n with
  | O => OutOfFuel
  | S n' =>
      if offs <? len then
        m ← strstr code pcode "struct";
        match m with
        | None => Ret structs
        | Some p =>
            h ← struct_header fuel code len p;
            match h with
            | None => Ret structs
            | Some (field_name, offs) =>
                '(offs, field_fields) ←
                  struct_body fuel fuel structs base_types complex_types code len offs [];
                structs ← struct_commit structs code len offs field_name field_fields;
                let pcode := wrap32 (offs + 2) in
                if len <=? pcode then Ret structs
                else parse_structures_loop n' fuel structs base_types complex_types
                       code len pcode offs
            end
        end
      else Ret structs
  end.

(** [parse_structures(structs, code, len, base_types, complex_types)]: the
    table after the call. *)
Definition parse_structures (fuel : nat) (structs : gmap string (list string))
    (code : buffer) (len : Z) (base_types complex_types : list string)
  : outcome (gmap string (list string)) :=
  parse_structures_loop fuel fuel structs base_types complex_types code len 0 0.

(** ** Declaration extractor *)

(** Lines 304-312: what follows a variable name. *)
Definition var_end (fuel : nat) (code : buffer) (l o : Z) : outcome Z :=
  c ← read code o;
  if is_char c ch_comma then Ret (wrap32 (o + 1))
  else if is_char c ch_lbracket then skip_array fuel code o l
  else Ret o.

(** Lines 290-299: the results pushed for the variable [tok]. *)
Definition push_var (struct_fld : option (list string)) (tok : string)
    (res : list string) : list string :=
  match struct_fld with
  | Some flds => res ++ dotted tok flds
  | None => res ++ [tok]
  end.

(** Lines 282-313: [while (o < l) { ... }], the variable names of one
    declaration. *)
Fixpoint var_list (n fuel : nat) (struct_fld : option (list string)) (code : buffer)
    (l o : Z) (res : list string) : outcome (Z * list string) :=
  match n with
  | O => OutOfFuel
  | S n' =>
      if o <? l then
        o ← skip_ws fuel code o l;
        if l <=? o then Ret (o, res)
        else
          c ← read code o;
          if is_char c ch_semi then Ret (o, res)
          else
            '(tok, o) ← next_tok fuel code o l;
            let res := push_var struct_fld tok res in
            o ← skip_ws fuel code o l;
            if l <=? o then Ret (o, res)
            else
              o ← var_end fuel code l o;
              var_list n' fuel struct_fld code l o res
      else Ret (o, res)
  end.

(** Lines 276-280: [Some struct_fld] when the declaration goes on, [None]
    at the [continue]. *)
Definition classify (tok : string) (structs : gmap string (list string))
    (base_types complex_types : list string) : option (option (list string)) :=
  if negb (is_builtin_type tok base_types complex_types) then
    match get_struct_field tok structs with
    | Some flds => Some (Some flds)
    | None => None
    end
  else Some None.

(** Lines 257-315: [for (uint32_t offs = 0; offs < len;) { ... }]. *)
Fixpoint parse_vars_loop (n fuel : nat) (structs : gmap string (list string))
    (field_name : string) (base_types complex_types : list string) (code : buffer)
    (len pcode offs : Z) (res : list string) : outcome (list string) :=
  match n with
  | O => OutOfFuel
  | S n' =>
      if offs <? len then
        m ← strstr code pcode (c_str field_name);
        match m with
        | None => Ret res
        | Some p =>
            let offs := wrap32 p in
            let pcode := p + wrap32 (Z.of_nat (String.length field_name)) in
            o ← skip_ws fuel code (wrap32 pcode) len;
            if len <=? o then Ret res
            else
              '(tok, o) ← next_tok fuel code o len;
              match classify tok structs base_types complex_types with
              | None =>
                  parse_vars_loop n' fuel structs field_name base_types complex_types
                    code len pcode offs res
              | Some struct_fld =>
                  '(o, res) ← var_list fuel fuel struct_fld code len o res;
                  parse_vars_loop n' fuel structs field_name base_types complex_types
                    code len o offs res
              end
        end
      else Ret res
  end.

(** [parse_vars(res, field_name, code, len, base_types, complex_types)]: the
    sequence [res] after the call. *)
Definition parse_vars (fuel : nat) (res : list string) (field_name : string)
    (code : buffer) (len : Z) (base_types complex_types : list string)
  : outcome (list string) :=
  structs ← parse_structures fuel ∅ code len base_types complex_types;
  parse_vars_loop fuel fuel structs field_name base_types complex_types code len 0 0 res.

(** ** The shader object *)

Record shader : Type := mk_shader {
  m_attributes : gmap string Z;
  m_uniforms : gmap string Z;
  m_builtin_types : list string;
  m_complex_builtin_types : list string;
  m_pending_uniforms : list string;
  m_pending_attributes : list string;
  m_shaders : list Z;
  m_log_buffer : list ascii;
  m_program : Z
}.

(** [get_attribute(attr)]: the handle and the object after the call. *)
Definition get_attribute (attr : string) (st : shader) : Z * shader :=
  (match m_attributes st !! attr with
   | Some h => h
   | None => 0
   end, st).

(** [get_uniform(uni)]: the handle and the object after the call. *)
Definition get_uniform (uni : string) (st : shader) : Z * shader :=
  (match m_uniforms st !! uni with
   | Some h => h
   | None => 0
   end, st).

(** What the graphics library answers during one [load]: the handle of
    [glCreateShader], the [GL_COMPILE_STATUS] and the info log. *)
Record gl_compile : Type := mk_gl_compile {
  gl_shader : Z;
  gl_compile_status : Z;
  gl_info_log : list ascii
}.

Definition GL_FALSE : Z := 0.

Definition set_pending (st : shader) (pu pa : list string) : shader :=
  mk_shader (m_attributes st) (m_uniforms st) (m_builtin_types st)
    (m_complex_builtin_types st) pu pa (m_shaders st) (m_log_buffer st) (m_program st).

Definition push_shader (st : shader) (tmp : Z) : shader :=
  mk_shader (m_attributes st) (m_uniforms st) (m_builtin_types st)
    (m_complex_builtin_types st) (m_pending_uniforms st) (m_pending_attributes st)
    (m_shaders st ++ [tmp]) (m_log_buffer st) (m_program st).

Definition push_log (st : shader) (msg : list ascii) : shader :=
  mk_shader (m_attributes st) (m_uniforms st) (m_builtin_types st)
    (m_complex_builtin_types st) (m_pending_uniforms st) (m_pending_attributes st)
    (m_shaders st) (m_log_buffer st ++ msg) (m_program st).

(** [load(type, code, len)], lines 397-426: the returned flag and the object
    after the call. *)
Definition load (fuel : nat) (gl : gl_compile) (code : buffer) (len : Z) (st : shader)
  : outcome (bool * shader) :=
  pu ← parse_vars fuel (m_pending_uniforms st) "uniform" code len
         (m_builtin_types st) (m_complex_builtin_types st);
  pa ← parse_vars fuel (m_pending_attributes st) "attribute" code len
         (m_builtin_types st) (m_complex_builtin_types st);
  let st := set_pending st pu pa in
  if negb (gl_compile_status gl =? GL_FALSE) then
    Ret (true, push_shader st (gl_shader gl))
  else
    Ret (false, push_log st (list_ascii_of_string "LD:" ++ gl_info_log gl ++ [ch_lf])).

(** The object a constructor leaves: [import_std_builtin_types] and no
    program. *)
Definition new_shader : shader :=
  mk_shader ∅ ∅ std_builtin_types std_complex_builtin_types [] [] [] [] 0.

(** ** Sources used as examples *)

Definition slen (s : string) : Z := Z.of_nat (String.length s).

Definition src_nested : string :=
  "struct Inner { float a2; }; struct Outer { Inner f; float e; }; uniform Outer test;".

(** The shader of the header's usage note. *)
Definition src_header : string :=
  "struct var3_t { int a2; int b2; int c2; } struct var_t { int a; int b; int c; var3_t f; } struct var2_t {var_t other; int d; int e; } uniform var2_t test;".

Definition src_comma_array : string := "uniform float a, b[4];".

Definition src_partial_struct : string := "struct Foo {".



Definition src_line_comment : string := "//a" +:+ String ch_lf "b".


Definition src_partial_field : string := "struct Foo { float x; int y".


(** A shader object with one attribute and one uniform resolved. *)
Definition shader_one_uniform : shader :=
  mk_shader {[ "a_pos"%string := 3 ]} {[ "u_color"%string := 7 ]}
    std_builtin_types std_complex_builtin_types [] [] [] [] 1.

(** The pending sequences of the object a [load] leaves. *)
Definition pending_after (r : outcome (bool * shader))
  : outcome (list string * list string) :=
  '(_, st) ← r; Ret (m_pending_uniforms st, m_pending_attributes st).

(** ** Occurrences of a keyword in a text *)

(** [occurs_in t s]: the text [s] holds an occurrence of [t]. *)
Definition occurs_in (t s : string) : Prop :=
  exists pre post, s = pre +:+ t +:+ post.

(** ** The rest of the shader object *)

Definition set_builtin_types (st : shader) (base_types complex_types : list string)
  : shader :=
  mk_shader (m_attributes st) (m_uniforms st) base_types complex_types
    (m_pending_uniforms st) (m_pending_attributes st)
    (m_shaders st) (m_log_buffer st) (m_program st).

(** [register_builtin_type(type, complex)], lines 334-339. *)
Definition register_builtin_type (type : string) (complex : bool) (st : shader) : shader :=
  if negb complex
  then set_builtin_types st (m_builtin_types st ++ [type]) (m_complex_builtin_types st)
  else set_builtin_types st (m_builtin_types st) (m_complex_builtin_types st ++ [type]).

(** [import_std_builtin_types()], lines 341-355. *)
Definition import_std_builtin_types (st : shader) : shader :=
  let st := set_builtin_types st [] [] in
  let st := register_builtin_type "int" false st in
  let st := register_builtin_type "uint" false st in
  let st := register_builtin_type "bool" false st in
  let st := register_builtin_type "float" false st in
  let st := register_builtin_type "double" false st in
  let st := register_builtin_type "atomic_uint" false st in
  let st := register_builtin_type "vec" true st in
  let st := register_builtin_type "mat" true st in
  let st := register_builtin_type "image" true st in
  register_builtin_type "sampler" true st.

(** [unload()], lines 357-369: the program is 0 afterwards whether or not one
    was deleted; the registry and the log are not touched. *)
Definition unload (st : shader) : shader :=
  mk_shader ∅ ∅ (m_builtin_types st) (m_complex_builtin_types st) [] [] []
    (m_log_buffer st) 0.

(** [get_log()], lines 330-332: no pointer for an empty log, else the cells
    of the log. *)
Definition get_log (st : shader) : option (list ascii) :=
  match m_log_buffer st with
  | [] => None
  | _ :: _ => Some (m_log_buffer st)
  end.

(** [std::map::insert] on a table of handles: an existing key keeps its
    handle. *)
Definition handle_insert (k : string) (h : Z) (m : gmap string Z) : gmap string Z :=
  match m !! k with
  | Some _ => m
  | None => <[k := h]> m
  end.

(** [add_attribute(attr)], lines 389-391; [loc] is the [GLint] answer of
    [glGetAttribLocation], stored as a [uint32_t]. *)
Definition add_attribute (loc : Z) (attr : string) (st : shader) : shader :=
  mk_shader (handle_insert attr (wrap32 loc) (m_attributes st)) (m_uniforms st)
    (m_builtin_types st) (m_complex_builtin_types st)
    (m_pending_uniforms st) (m_pending_attributes st)
    (m_shaders st) (m_log_buffer st) (m_program st).

(** [add_uniform(uni)], lines 393-395. *)
Definition add_uniform (loc : Z) (uni : string) (st : shader) : shader :=
  mk_shader (m_attributes st) (handle_insert uni (wrap32 loc) (m_uniforms st))
    (m_builtin_types st) (m_complex_builtin_types st)
    (m_pending_uniforms st) (m_pending_attributes st)
    (m_shaders st) (m_log_buffer st) (m_program st).

(** [load(type, code)], lines 428-430: the characters of the string with
    their terminator, and its length as a [uint32_t]. *)
Definition load_string (fuel : nat) (gl : gl_compile) (code : string) (st : shader)
  : outcome (bool * shader) :=
  load fuel gl (cstring code) (wrap32 (slen code)) st.

(** What the graphics library answers during one [finalize]: the handle of
    [glCreateProgram], the [GL_LINK_STATUS], the info log, and the locations
    of the names in the linked program. *)
Record gl_link : Type := mk_gl_link {
  gl_program : Z;
  gl_link_status : Z;
  gl_link_log : list ascii;
  gl_attrib_location : string -> Z;
  gl_uniform_location : string -> Z
}.

(** The text of line 437. *)
Definition msg_no_shaders : list ascii :=
  list_ascii_of_string "finalize() : No GLSL compiled shaders found!" ++ [ch_lf].

(** [%u] of [sprintf]. *)
Definition decimal (z : Z) : string := NilZero.string_of_uint (N.to_uint (Z.to_N z)).

(** The text of line 449. *)
Definition msg_still_active (program : Z) : list ascii :=
  list_ascii_of_string "finalize() : Warning previous program("
  ++ list_ascii_of_string (decimal program)
  ++ list_ascii_of_string ") is still active." ++ [ch_lf]
  ++ list_ascii_of_string "Shutting it down.." ++ [ch_lf].

Definition set_program (st : shader) (program : Z) : shader :=
  mk_shader (m_attributes st) (m_uniforms st) (m_builtin_types st)
    (m_complex_builtin_types st) (m_pending_uniforms st) (m_pending_attributes st)
    (m_shaders st) (m_log_buffer st) program.

Definition clear_tables (st : shader) : shader :=
  mk_shader ∅ ∅ (m_builtin_types st) (m_complex_builtin_types st)
    (m_pending_uniforms st) (m_pending_attributes st)
    (m_shaders st) (m_log_buffer st) (m_program st).

Definition clear_pending_and_shaders (st : shader) : shader :=
  mk_shader (m_attributes st) (m_uniforms st) (m_builtin_types st)
    (m_complex_builtin_types st) [] [] [] (m_log_buffer st) (m_program st).

Definition clear_log (st : shader) : shader :=
  mk_shader (m_attributes st) (m_uniforms st) (m_builtin_types st)
    (m_complex_builtin_types st) (m_pending_uniforms st) (m_pending_attributes st)
    (m_shaders st) [] (m_program st).

(** [finalize()], lines 432-504: the returned flag and the object after the
    call. *)
Definition finalize (gl : gl_link) (st : shader) : bool * shader :=
  match m_shaders st with
  | [] => (false, push_log st msg_no_shaders)
  | _ :: _ =>
      let st := if negb (m_program st =? 0)
                then push_log st (msg_still_active (m_program st))
                else st in
      let st := set_program st (gl_program gl) in
      let failed := gl_link_status gl =? GL_FALSE in
      let st := if failed
                then push_log st (list_ascii_of_string "LNK:" ++ gl_link_log gl ++ [ch_lf])
                else st in
      let st := clear_tables st in
      let st := foldl (fun st attr => add_attribute (gl_attrib_location gl attr) attr st)
                  st (m_pending_attributes st) in
      let st := foldl (fun st uni => add_uniform (gl_uniform_location gl uni) uni st)
                  st (m_pending_uniforms st) in
      let st := clear_pending_and_shaders st in
      (negb failed, if negb failed then clear_log st else st)
  end.

(** A call made to the graphics library to set a value: the function, the
    location and the value. *)
Inductive gl_call : Type :=
| glUniform1i (location v : Z)
| glUniform1ui (location v : Z).

(** A [uint32_t] handle passed where the library takes a [GLint]. *)
Definition to_GLint (z : Z) : Z :=
  let w := wrap32 z in if w <? 2 ^ 31 then w else w - 2 ^ 32.

(** [u_s32(name, i)], lines 564-566. *)
Definition u_s32 (name : string) (i : Z) (st : shader) : gl_call :=
  glUniform1i (to_GLint (fst (get_uniform name st))) i.

(** [u_tex(name, id)], lines 568-570. *)
Definition u_tex (name : string) (id : Z) (st : shader) : gl_call :=
  glUniform1i (to_GLint (fst (get_uniform name st))) id.

(** [u_u32(name, ui)], lines 556-558. *)
Definition u_u32 (name : string) (ui : Z) (st : shader) : gl_call :=
  glUniform1ui (to_GLint (fst (get_uniform name st))) ui.

(** Answers of the graphics library used in examples. *)
Definition gl_compiled : gl_compile := mk_gl_compile 1 1 [].
Definition gl_linked : gl_link :=
  mk_gl_link 5 1 [] (fun _ => 2) (fun name => if String.eqb name "a" then 4 else -1).

(** An object with names pending, a compiled shader and handles of an
    earlier program. *)
Definition shader_pending : shader :=
  mk_shader {[ "old"%string := 3 ]} {[ "old"%string := 8 ]}
    std_builtin_types std_complex_builtin_types
    ["a"; "b"; "a"]%string ["p"]%string [1] [] 0.

(** The cells [code[a]], ..., [code[b - 1]]. *)
Definition slice (code : buffer) (a b : Z) : list ascii :=
  take (Z.to_nat (b - a)) (drop (Z.to_nat a) code).

(** Objects and answers used in examples of [load] and [finalize]. *)
Definition src_two_names : string := "uniform float a, b; attribute vec3 p;".

Definition gl_not_compiled : gl_compile := mk_gl_compile 1 GL_FALSE [].

Definition shader_after_failed_load : shader :=
  mk_shader ∅ ∅ std_builtin_types std_complex_builtin_types
    ["a"; "b"]%string ["p"]%string [] (list_ascii_of_string "LD:" ++ [ch_lf]) 0.

Definition shader_after_second_load : shader :=
  mk_shader ∅ ∅ std_builtin_types std_complex_builtin_types
    ["a"; "b"]%string ["p"]%string [1] (list_ascii_of_string "LD:" ++ [ch_lf]) 0.

Definition shader_after_second_unload : shader :=
  mk_shader ∅ ∅ std_builtin_types std_complex_builtin_types
    ["a"; "b"]%string ["p"]%string [1] [] 0.

Definition gl_link_failed : gl_link :=
  mk_gl_link 5 GL_FALSE (list_ascii_of_string "bad link" ++ [NUL]) (fun _ => -1) (fun _ => -1).

(** [shader_pending] after a failed [load] of [src_two_names]. *)
Definition shader_pending_after_load : shader :=
  mk_shader {[ "old"%string := 3 ]} {[ "old"%string := 8 ]}
    std_builtin_types std_complex_builtin_types
    ["a"; "b"; "a"; "a"; "b"]%string ["p"; "p"]%string [1]
    (list_ascii_of_string "LD:" ++ [ch_lf]) 0.

(** * Properties *)

(** Closes a goal that both sides of which evaluate to one value. *)
Ltac run := vm_compute; reflexivity.

(** ** Arithmetic and reads *)

Lemma wrap32_small (z : Z) : 0 <= z < 2 ^ 32 -> wrap32 z = z.
Proof. intros H. unfold wrap32. apply Z.mod_small. exact H. Qed.

Lemma bind_ret {A B : Type} (a : A) (k : A -> outcome B) : (Ret a ≫= k) = k a.
Proof. reflexivity. Qed.

Lemma read_in_range (code : buffer) (i : Z) :
  0 <= i < Z.of_nat (length code) -> exists c, read code i = Ret c.
Proof.
  intros [H0 H1]. unfold read.
  destruct (Z.ltb_spec i 0) as [Hneg|_]; [lia|].
  destruct (nth_error code (Z.to_nat i)) as [c|] eqn:E; [eauto|].
  apply nth_error_None in E. lia.
Qed.

(** The condition of the line-comment loop holds of every character. *)
Lemma line_comment_condition (c : ascii) :
  negb (is_char c ch_lf) || negb (is_char c ch_cr) = true.
Proof.
  unfold is_char. destruct (Ascii.eqb_spec c ch_lf) as [->|_]; reflexivity.
Qed.

(** ** Scanner *)

Section Scanner.
Variable code : buffer.
Variable len : Z.

Lemma skip_spaces_stays (n : nat) (ptr : Z) (c : ascii) :
  read code ptr = Ret c -> isspace c = false ->
  skip_spaces (S n) code ptr len = Ret ptr.
Proof.
  intros Hr Hs. simpl. destruct (ptr <? len); [|reflexivity].
  rewrite Hr, bind_ret, Hs. reflexivity.
Qed.

Lemma skip_ws_loop_at_end (n fuel : nat) (ptr : Z) (done : bool) :
  len <= ptr -> skip_ws_loop (S n) fuel code ptr len done = Ret ptr.
Proof.
  intros H. simpl. destruct (Z.ltb_spec ptr len); [lia|].
  rewrite andb_false_r. reflexivity.
Qed.

Hypothesis len_32 : len < 2 ^ 32.
Hypothesis len_cells : len <= Z.of_nat (length code).

Lemma skip_line_comment_to_end (n : nat) (ptr : Z) :
  0 <= ptr <= len -> (Z.to_nat (len - ptr) < n)%nat ->
  skip_line_comment n code ptr len = Ret len.
Proof.
  revert ptr. induction n as [|n IH]; intros ptr Hptr Hn; [lia|].
  simpl. destruct (Z.ltb_spec ptr len) as [Hlt|Hge].
  - destruct (read_in_range code ptr) as [c Hc]; [lia|].
    rewrite Hc, bind_ret, line_comment_condition.
    rewrite wrap32_small by lia. apply IH; lia.
  - f_equal. lia.
Qed.
End Scanner.

(** C1 (what the code does at a line comment): placed at [//], [skip_ws]
    consumes every remaining character of the buffer and returns [len],
    whatever line ends follow; nothing of the later lines is left. *)
Theorem skip_ws_line_comment_runs_to_end (fuel : nat) (code : buffer) (ptr len : Z) :
  0 <= ptr -> ptr + 1 < len -> len < 2 ^ 32 -> len <= Z.of_nat (length code) ->
  read code ptr = Ret ch_slash -> read code (ptr + 1) = Ret ch_slash ->
  (Z.to_nat (len - ptr) + 2 <= fuel)%nat ->
  skip_ws fuel code ptr len = Ret len.
Proof.
  intros H0 H1 Hlen Hcells Hs1 Hs2 Hfuel. unfold skip_ws.
  destruct fuel as [|[|f]]; [lia|lia|].
  cbn [skip_ws_loop]. destruct (Z.ltb_spec ptr len) as [_|?]; [|lia].
  cbn [negb andb].
  rewrite (skip_spaces_stays code len _ ptr ch_slash Hs1 eq_refl), bind_ret.
  unfold skip_comment. rewrite (wrap32_small (ptr + 1)) by lia.
  destruct (Z.ltb_spec (ptr + 1) len) as [_|?]; [|lia].
  rewrite Hs1, bind_ret. cbn [is_char]. change (Ascii.eqb ch_slash ch_slash) with true.
  cbv iota. rewrite Hs2, bind_ret. change (Ascii.eqb ch_slash ch_slash) with true.
  cbv iota. rewrite (skip_line_comment_to_end code len Hlen Hcells (S (S f))) by lia.
  rewrite !bind_ret. apply skip_ws_loop_at_end. lia.
Qed.

Lemma skip_ws_line_comment_runs_to_end_witness :
  skip_ws 7 (cstring src_line_comment) 0 5 = Ret 5.
Proof.
  apply (skip_ws_line_comment_runs_to_end 7 (cstring src_line_comment) 0 5);
    first [ reflexivity | vm_compute; lia | vm_compute; congruence ].
Defined.

(** C2 (what the code does at a slash that opens no comment): placed at a
    [/] that is followed, inside the buffer, by a character other than [/]
    and [*], the loop of [skip_ws] sets [done = false] without moving [ptr],
    so no number of rounds makes it return. *)
Theorem skip_ws_stray_slash_never_returns (code : buffer) (ptr len : Z) (c : ascii) :
  0 <= ptr -> ptr + 1 < len -> len <= 2 ^ 32 ->
  read code ptr = Ret ch_slash -> read code (ptr + 1) = Ret c ->
  is_char c ch_slash = false -> is_char c ch_star = false ->
  forall fuel, skip_ws fuel code ptr len = OutOfFuel.
Proof.
  intros H0 H1 Hlen Hs Hc Hn1 Hn2 fuel. unfold skip_ws.
  generalize fuel at 1. intros n. induction n as [|n IH]; [reflexivity|].
  cbn [skip_ws_loop]. destruct (Z.ltb_spec ptr len) as [_|?]; [|lia].
  cbn [negb andb]. destruct fuel as [|f]; [reflexivity|].
  rewrite (skip_spaces_stays code len _ ptr ch_slash Hs eq_refl), bind_ret.
  unfold skip_comment. rewrite (wrap32_small (ptr + 1)) by lia.
  destruct (Z.ltb_spec (ptr + 1) len) as [_|?]; [|lia].
  rewrite Hs, bind_ret. change (is_char ch_slash ch_slash) with true. cbv iota.
  rewrite Hc, bind_ret, Hn1, Hn2, bind_ret. exact IH.
Qed.

Lemma skip_ws_stray_slash_never_returns_witness :
  skip_ws 1000 (cstring "/a") 0 2 = OutOfFuel.
Proof.
  refine (skip_ws_stray_slash_never_returns (cstring "/a") 0 2 "a"%char
            _ _ _ _ _ _ _ 1000%nat);
    first [ reflexivity | vm_compute; congruence ].
Defined.

(** C3 (what the code does at a block comment whose body holds a [*] or a
    [/]): the scan for the end of the comment stops at the first [*], and at
    the first character that a [/] follows; when no [*/] is there the comment
    is left unfinished and [skip_ws] returns an offset inside it: 3 in
    [/*a*b*/c] and 2 in [/*a/b*/c], where the comment ends at 7. *)
Theorem skip_ws_block_comment_stops_inside (n : nat) :
  skip_ws (8 + n) (cstring "/*a*b*/c") 0 8 = Ret 3
  /\ skip_ws (8 + n) (cstring "/*a/b*/c") 0 8 = Ret 2
  /\ skip_ws (8 + n) (cstring "/*ab*/c") 0 7 = Ret 6.
Proof.
  repeat split; run.
Qed.

(** ** Struct table builder *)




(** ** Declaration extractor *)

(** C5: on the nested-struct source, extraction with [uniform] appends
    exactly [test.f.a2] and [test.e], in that order; [Outer] is stored in the
    table with the path of [Inner] already flattened. *)
Theorem parse_vars_nested_struct (n : nat) (res : list string) :
  parse_vars (10 + n) res "uniform" (cstring src_nested) (slen src_nested)
    std_builtin_types std_complex_builtin_types
  = Ret (res ++ ["test.f.a2"; "test.e"]%string)
  /\ parse_structures (10 + n) ∅ (cstring src_nested) (slen src_nested)
       std_builtin_types std_complex_builtin_types
     = Ret (<[ "Outer"%string := ["f.a2"; "e"]%string ]>
              {[ "Inner"%string := ["a2"%string] ]}).
Proof.
  split; run.
Qed.

(** The usage note of the header: [test.other.f.a2] and [test.e] are among
    the names found for [uniform var2_t test;]. *)
Example parse_vars_header_note :
  parse_vars 10 [] "uniform" (cstring src_header) (slen src_header)
    std_builtin_types std_complex_builtin_types
  = Ret ["test.other.a"; "test.other.b"; "test.other.c"; "test.other.f.a2";
         "test.other.f.b2"; "test.other.f.c2"; "test.d"; "test.e"]%string.
Proof. run. Qed.

(** C6: on [uniform float a, b[4];], extraction with [uniform] appends
    exactly [a] and [b], in that order; the bracket group yields nothing. *)
Theorem parse_vars_comma_array (n : nat) (res : list string) :
  parse_vars (6 + n) res "uniform" (cstring src_comma_array) (slen src_comma_array)
    std_builtin_types std_complex_builtin_types
  = Ret (res ++ ["a"; "b"]%string).
Proof.
  transitivity (Ret (A := list string) ((res ++ ["a"%string]) ++ ["b"%string])).
  - run.
  - rewrite <- app_assoc. reflexivity.
Qed.

(** *** Searching a text that does not hold the needle *)

Lemma append_cons (c : ascii) (t s : string) :
  String c t +:+ s = String c (t +:+ s).
Proof. reflexivity. Qed.

Lemma prefix_occurs (t s : string) :
  String.prefix t s = true <-> exists post, s = t +:+ post.
Proof.
  revert s. induction t as [|a t IH]; intros s.
  - split; [intros _; exists s; reflexivity | intros _; destruct s; reflexivity].
  - destruct s as [|c s]; simpl.
    + split; [discriminate | intros [post H]; discriminate].
    + destruct (ascii_dec a c) as [->|Hne].
      * rewrite IH. split; intros [post H]; exists post;
          rewrite append_cons in *; congruence.
      * split; [discriminate | intros [post H]; rewrite append_cons in H; congruence].
Qed.

Lemma str_contains_occurs (t s : string) :
  str_contains t s = true <-> occurs_in t s.
Proof.
  unfold occurs_in. induction s as [|c s IH]; cbn [str_contains].
  - rewrite orb_false_r, prefix_occurs. split.
    + intros [post H]. exists EmptyString, post. exact H.
    + intros [[|a pre] [post H]]; [exists post; exact H | discriminate].
  - rewrite orb_true_iff, prefix_occurs, IH. split.
    + intros [[post H]|[pre [post H]]].
      * exists EmptyString, post. exact H.
      * exists (String c pre), post. rewrite append_cons. congruence.
    + intros [[|a pre] [post H]].
      * left. exists post. exact H.
      * right. exists pre, post. rewrite append_cons in H. congruence.
Qed.










(** C8: on a buffer whose readable cells begin with the unterminated
    [struct Foo {] and whose length is given as those 12 characters, the
    struct table builder returns, with any budget of at least 5 rounds, the
    table it was given, so no entry is added.  Whatever cells follow, and
    when none does, the run is the same and does not fault: no index at or
    above [len] is read.  The same holds when the buffer ends inside the
    body, after some fields. *)
Theorem parse_structures_partial_struct (n : nat) (structs : gmap string (list string))
    (base_types complex_types : list string) (tail : list ascii) :
  parse_structures (5 + n) structs
    (list_ascii_of_string src_partial_struct ++ tail) (slen src_partial_struct)
    base_types complex_types
  = Ret structs
  /\ parse_structures (7 + n) structs
       (list_ascii_of_string src_partial_field ++ tail) (slen src_partial_field)
       std_builtin_types std_complex_builtin_types
     = Ret structs.
Proof.
  split; run.
Qed.

(** ** Handle lookups and [load] *)

(** C9: for a path that is not a key of the table consulted, [get_uniform]
    and [get_attribute] return the handle 0, and the object, with both
    tables, is as before the call. *)
Theorem lookup_unknown_path (st : shader) (path : string) :
  (m_uniforms st !! path = None -> get_uniform path st = (0, st))
  /\ (m_attributes st !! path = None -> get_attribute path st = (0, st)).
Proof.
  unfold get_uniform, get_attribute.
  split; intros H; rewrite H; reflexivity.
Qed.

Lemma lookup_unknown_path_witness :
  get_uniform "u_missing" shader_one_uniform = (0, shader_one_uniform)
  /\ get_attribute "a_missing" shader_one_uniform = (0, shader_one_uniform)
  /\ get_uniform "u_color" shader_one_uniform = (7, shader_one_uniform).
Proof.
  split; [|split].
  - apply (proj1 (lookup_unknown_path shader_one_uniform "u_missing")).
    vm_compute. reflexivity.
  - apply (proj2 (lookup_unknown_path shader_one_uniform "a_missing")).
    vm_compute. reflexivity.
  - vm_compute. reflexivity.
Defined.

(** C10: whatever the compile status, the pending sequences after [load]
    are those [parse_vars] leaves for [uniform] and for [attribute], so they
    grow alike when compilation succeeds and when it fails; a [load] that
    returns [false] has appended the names all the same. *)
Theorem load_pending_whatever_status (fuel : nat) (gl gl' : gl_compile)
    (code : buffer) (len : Z) (st : shader) :
  pending_after (load fuel gl code len st)
  = (pu ← parse_vars fuel (m_pending_uniforms st) "uniform" code len
            (m_builtin_types st) (m_complex_builtin_types st);
     pa ← parse_vars fuel (m_pending_attributes st) "attribute" code len
            (m_builtin_types st) (m_complex_builtin_types st);
     Ret (pu, pa))
  /\ pending_after (load fuel gl code len st) = pending_after (load fuel gl' code len st)
  /\ load (10 + fuel) (mk_gl_compile 1 GL_FALSE []) (cstring "uniform float a;") 16 new_shader
     = Ret (false, mk_shader ∅ ∅ std_builtin_types std_complex_builtin_types
                     ["a"%string] [] [] (list_ascii_of_string "LD:" ++ [ch_lf]) 0).
Proof.
  assert (H : forall g,
             pending_after (load fuel g code len st)
             = (pu ← parse_vars fuel (m_pending_uniforms st) "uniform" code len
                       (m_builtin_types st) (m_complex_builtin_types st);
                pa ← parse_vars fuel (m_pending_attributes st) "attribute" code len
                       (m_builtin_types st) (m_complex_builtin_types st);
                Ret (pu, pa))).
  { intros g. unfold load, pending_after.
    destruct (parse_vars fuel (m_pending_uniforms st) "uniform" code len
                (m_builtin_types st) (m_complex_builtin_types st)) as [pu| |];
      [|reflexivity|reflexivity].
    rewrite !bind_ret.
    destruct (parse_vars fuel (m_pending_attributes st) "attribute" code len
                (m_builtin_types st) (m_complex_builtin_types st)) as [pa| |];
      [|reflexivity|reflexivity].
    rewrite !bind_ret.
    destruct (negb (gl_compile_status g =? GL_FALSE)); reflexivity. }
  split; [apply H|]. split; [rewrite (H gl), (H gl'); reflexivity|].
  vm_compute. reflexivity.
Qed.

(** * Further properties of the code *)

(** ** The tables of handles *)

Lemma lookup_handle_insert (k k' : string) (h : Z) (m : gmap string Z) :
  handle_insert k h m !! k' =
  match m !! k' with
  | Some x => Some x
  | None => if decide (k = k') then Some h else None
  end.
Proof.
  unfold handle_insert. destruct (m !! k) as [x|] eqn:Ek.
  - destruct (m !! k') as [y|] eqn:Ek'; [reflexivity|].
    destruct (decide (k = k')) as [->|_]; [congruence|reflexivity].
  - rewrite lookup_insert. destruct (decide (k = k')) as [->|Hne].
    + rewrite Ek. reflexivity.
    + destruct (m !! k'); reflexivity.
Qed.

(** [add_uniform] and [add_attribute] keep the handle a path already has: a
    path that is in its table reads as before, a new one reads as the
    location stored (as a [uint32_t]), and the other paths and the other
    table are not affected. *)
Theorem add_then_get (loc : Z) (path other : string) (st : shader) :
  fst (get_uniform path (add_uniform loc path st))
  = match m_uniforms st !! path with Some h => h | None => wrap32 loc end
  /\ fst (get_attribute path (add_attribute loc path st))
     = match m_attributes st !! path with Some h => h | None => wrap32 loc end
  /\ (other <> path ->
      fst (get_uniform other (add_uniform loc path st)) = fst (get_uniform other st)
      /\ fst (get_attribute other (add_attribute loc path st))
         = fst (get_attribute other st))
  /\ fst (get_attribute other (add_uniform loc path st)) = fst (get_attribute other st)
  /\ fst (get_uniform other (add_attribute loc path st)) = fst (get_uniform other st).
Proof.
  unfold get_uniform, get_attribute, add_uniform, add_attribute. cbn [fst m_uniforms m_attributes].
  rewrite !lookup_handle_insert.
  assert (Hsame : forall o : option Z,
             match match o with
                   | Some x => Some x
                   | None => if decide (path = path) then Some (wrap32 loc) else None
                   end with
             | Some h => h
             | None => 0
             end = match o with Some h => h | None => wrap32 loc end).
  { intros [x|]; [reflexivity|]. destruct (decide (path = path)); [reflexivity|congruence]. }
  split; [apply Hsame|]. split; [apply Hsame|]. split; [|split; reflexivity].
  intros Hne.
  destruct (decide (path = other)) as [Heq|_]; [congruence|].
  split; [destruct (m_uniforms st !! other) | destruct (m_attributes st !! other)];
    reflexivity.
Qed.

Lemma add_then_get_witness :
  fst (get_uniform "u_color" (add_uniform 9 "u_color" shader_one_uniform)) = 7
  /\ fst (get_uniform "u_new" (add_uniform (-1) "u_new" shader_one_uniform)) = 4294967295
  /\ fst (get_uniform "u_color" (add_uniform 9 "u_new" shader_one_uniform)) = 7.
Proof.
  split; [|split].
  - exact (proj1 (add_then_get 9 "u_color" "u_new" shader_one_uniform)).
  - exact (proj1 (add_then_get (-1) "u_new" "u_color" shader_one_uniform)).
  - refine (proj1 (proj1 (proj2 (proj2 (add_then_get 9 "u_new" "u_color" shader_one_uniform))) _)).
    vm_compute. congruence.
Defined.

(** ** [finalize] *)

Lemma foldl_handle_insert_lookup (f : string -> Z) (l : list string) :
  forall (m : gmap string Z) (name : string),
  foldl (fun m k => handle_insert k (wrap32 (f k)) m) m l !! name =
  match m !! name with
  | Some h => Some h
  | None => if decide (name ∈ l) then Some (wrap32 (f name)) else None
  end.
Proof.
  induction l as [|k l IH]; intros m name; cbn [foldl].
  - destruct (m !! name); [reflexivity|].
    destruct (decide (name ∈ [])) as [Hin|_]; [inversion Hin|reflexivity].
  - rewrite IH, lookup_handle_insert. destruct (m !! name); [reflexivity|].
    destruct (decide (k = name)) as [->|Hne].
    + destruct (decide (name ∈ name :: l)) as [_|Hn]; [reflexivity|].
      exfalso. apply Hn. left.
    + destruct (decide (name ∈ l)) as [Hin|Hnin];
        destruct (decide (name ∈ k :: l)) as [Hin'|Hnin']; try reflexivity.
      * exfalso. apply Hnin'. right. exact Hin.
      * exfalso. apply elem_of_cons in Hin' as [->|Hin']; [congruence|contradiction].
Qed.

Lemma foldl_add_attribute (f : string -> Z) (l : list string) :
  forall st : shader,
  foldl (fun st attr => add_attribute (f attr) attr st) st l
  = mk_shader (foldl (fun m k => handle_insert k (wrap32 (f k)) m) (m_attributes st) l)
      (m_uniforms st) (m_builtin_types st) (m_complex_builtin_types st)
      (m_pending_uniforms st) (m_pending_attributes st)
      (m_shaders st) (m_log_buffer st) (m_program st).
Proof.
  induction l as [|k l IH]; intros st; cbn [foldl].
  - destruct st; reflexivity.
  - rewrite IH. reflexivity.
Qed.

Lemma foldl_add_uniform (f : string -> Z) (l : list string) :
  forall st : shader,
  foldl (fun st uni => add_uniform (f uni) uni st) st l
  = mk_shader (m_attributes st)
      (foldl (fun m k => handle_insert k (wrap32 (f k)) m) (m_uniforms st) l)
      (m_builtin_types st) (m_complex_builtin_types st)
      (m_pending_uniforms st) (m_pending_attributes st)
      (m_shaders st) (m_log_buffer st) (m_program st).
Proof.
  induction l as [|k l IH]; intros st; cbn [foldl].
  - destruct st; reflexivity.
  - rewrite IH. reflexivity.
Qed.

(** The object a [finalize] leaves when some shader was compiled. *)
Lemma finalize_with_shaders (gl : gl_link) (st : shader) :
  m_shaders st <> [] ->
  exists log,
    finalize gl st
    = (negb (gl_link_status gl =? GL_FALSE),
       mk_shader
         (foldl (fun m k => handle_insert k (wrap32 (gl_attrib_location gl k)) m)
            ∅ (m_pending_attributes st))
         (foldl (fun m k => handle_insert k (wrap32 (gl_uniform_location gl k)) m)
            ∅ (m_pending_uniforms st))
         (m_builtin_types st) (m_complex_builtin_types st) [] [] [] log (gl_program gl))
    /\ (gl_link_status gl <> GL_FALSE -> log = []).
Proof.
  intros Hne. unfold finalize. destruct (m_shaders st) as [|s ss]; [congruence|].
  cbv zeta. rewrite foldl_add_uniform, foldl_add_attribute.
  destruct (Z.eqb_spec (gl_link_status gl) GL_FALSE) as [Hst|Hst];
    destruct (negb (m_program st =? 0)); cbn;
    eexists; (split; [reflexivity|]); intros H; congruence.
Qed.

Lemma finalize_lookup (gl : gl_link) (st : shader) :
  m_shaders st <> [] ->
  (forall name,
      fst (get_uniform name (snd (finalize gl st)))
      = if decide (name ∈ m_pending_uniforms st)
        then wrap32 (gl_uniform_location gl name) else 0)
  /\ (forall name,
         fst (get_attribute name (snd (finalize gl st)))
         = if decide (name ∈ m_pending_attributes st)
           then wrap32 (gl_attrib_location gl name) else 0)
  /\ m_pending_uniforms (snd (finalize gl st)) = []
  /\ m_pending_attributes (snd (finalize gl st)) = []
  /\ m_shaders (snd (finalize gl st)) = []
  /\ m_program (snd (finalize gl st)) = gl_program gl
  /\ fst (finalize gl st) = negb (gl_link_status gl =? GL_FALSE).
Proof.
  intros Hne. destruct (finalize_with_shaders gl st Hne) as [log [-> _]].
  cbn [fst snd get_uniform get_attribute m_uniforms m_attributes
         m_pending_uniforms m_pending_attributes m_shaders m_program].
  repeat split; try reflexivity; intros name;
    rewrite foldl_handle_insert_lookup, lookup_empty;
    match goal with |- context [decide ?P] => destruct (decide P) end; reflexivity.
Qed.

(** After a [finalize] that found a compiled shader, the paths that read as
    a handle are exactly the pending ones: a pending uniform or attribute
    reads as the location the library gave (as a [uint32_t], so the answer -1
    reads as 4294967295), every other path reads as 0; handles of an earlier
    [finalize] are gone, the pending sequences and the shaders are empty, and
    the flag is the link status. *)
Theorem finalize_resolves_pending (gl : gl_link) (st : shader) :
  m_shaders st <> [] ->
  (forall name,
      fst (get_uniform name (snd (finalize gl st)))
      = if decide (name ∈ m_pending_uniforms st)
        then wrap32 (gl_uniform_location gl name) else 0)
  /\ (forall name,
         fst (get_attribute name (snd (finalize gl st)))
         = if decide (name ∈ m_pending_attributes st)
           then wrap32 (gl_attrib_location gl name) else 0)
  /\ m_pending_uniforms (snd (finalize gl st)) = []
  /\ m_pending_attributes (snd (finalize gl st)) = []
  /\ m_shaders (snd (finalize gl st)) = []
  /\ m_program (snd (finalize gl st)) = gl_program gl
  /\ fst (finalize gl st) = negb (gl_link_status gl =? GL_FALSE).
Proof. apply finalize_lookup. Qed.

Lemma finalize_resolves_pending_witness :
  fst (get_uniform "a" (snd (finalize gl_linked shader_pending))) = 4
  /\ fst (get_uniform "b" (snd (finalize gl_linked shader_pending))) = 4294967295
  /\ fst (get_uniform "old" (snd (finalize gl_linked shader_pending))) = 0
  /\ fst (get_attribute "p" (snd (finalize gl_linked shader_pending))) = 2
  /\ fst (finalize gl_linked shader_pending) = true.
Proof.
  assert (Hne : m_shaders shader_pending <> []) by (vm_compute; congruence).
  pose proof (finalize_resolves_pending gl_linked shader_pending Hne)
    as [Hu [Ha [_ [_ [_ [_ Hflag]]]]]].
  split; [|split; [|split; [|split]]].
  - rewrite (Hu "a"%string). reflexivity.
  - rewrite (Hu "b"%string). reflexivity.
  - rewrite (Hu "old"%string). reflexivity.
  - rewrite (Ha "p"%string). reflexivity.
  - rewrite Hflag. reflexivity.
Defined.

(** ** [parse_vars] only appends *)

(** Unfolds the binds of the goal and the hypotheses. *)
Ltac unbind := unfold mbind, outcome_bind in *; cbv beta iota in *.

(** Case analysis on the next call a run waits for; [x] names its result. *)
Ltac next_call x :=
  match goal with
  | |- context [match ?m with Ret _ => _ | Fault => _ | OutOfFuel => _ end] =>
      lazymatch m with
      | context [match _ with Ret _ => _ | Fault => _ | OutOfFuel => _ end] => fail
      | _ => destruct m as [x| |] eqn:?; cbv beta iota; try reflexivity
      end
  end.

Lemma push_var_app (struct_fld : option (list string)) (tok : string) (res : list string) :
  push_var struct_fld tok res = res ++ push_var struct_fld tok [].
Proof. destruct struct_fld; reflexivity. Qed.

Lemma var_list_app (n fuel : nat) (struct_fld : option (list string)) (code : buffer)
    (l : Z) :
  forall (o : Z) (res : list string),
  var_list n fuel struct_fld code l o res
  = ('(o', r) ← var_list n fuel struct_fld code l o []; Ret (o', res ++ r)).
Proof.
  induction n as [|n IH]; intros o res; [reflexivity|].
  cbn [var_list]. unbind.
  destruct (o <? l); [|rewrite app_nil_r; reflexivity].
  next_call o1. destruct (l <=? o1); [rewrite app_nil_r; reflexivity|].
  next_call c. destruct (is_char c ch_semi); [rewrite app_nil_r; reflexivity|].
  next_call t. destruct t as [tok o2]. next_call o3.
  destruct (l <=? o3); [rewrite push_var_app; reflexivity|].
  next_call o4. rewrite (IH o4 (push_var struct_fld tok res)).
  rewrite (IH o4 (push_var struct_fld tok [])).
  destruct (var_list n fuel struct_fld code l o4 []) as [[o' r]| |]; try reflexivity.
  rewrite (push_var_app struct_fld tok res), app_assoc. reflexivity.
Qed.

Lemma parse_vars_loop_app (n fuel : nat) (structs : gmap string (list string))
    (field_name : string) (base_types complex_types : list string) (code : buffer)
    (len : Z) :
  forall (pcode offs : Z) (res : list string),
  parse_vars_loop n fuel structs field_name base_types complex_types code len pcode offs res
  = (r ← parse_vars_loop n fuel structs field_name base_types complex_types
           code len pcode offs [];
     Ret (res ++ r)).
Proof.
  induction n as [|n IH]; intros pcode offs res; [reflexivity|].
  cbn [parse_vars_loop]. unbind.
  destruct (offs <? len); [|rewrite app_nil_r; reflexivity].
  next_call m. destruct m as [p|]; [|rewrite app_nil_r; reflexivity].
  cbv zeta. next_call o. destruct (len <=? o); [rewrite app_nil_r; reflexivity|].
  next_call t. destruct t as [tok o1].
  destruct (classify tok structs base_types complex_types) as [struct_fld|];
    [|apply IH].
  rewrite (var_list_app fuel fuel struct_fld code len o1 res). unbind.
  destruct (var_list fuel fuel struct_fld code len o1 []) as [[o2 r]| |];
    try reflexivity.
  rewrite (IH o2 (wrap32 p) (res ++ r)), (IH o2 (wrap32 p) r).
  destruct (parse_vars_loop n fuel structs field_name base_types complex_types
              code len o2 (wrap32 p) []) as [r'| |]; try reflexivity.
  rewrite app_assoc. reflexivity.
Qed.

Lemma parse_vars_app (fuel : nat) (res : list string) (field_name : string)
    (code : buffer) (len : Z) (base_types complex_types : list string) :
  parse_vars fuel res field_name code len base_types complex_types
  = (r ← parse_vars fuel [] field_name code len base_types complex_types;
     Ret (res ++ r)).
Proof.
  unfold parse_vars. unbind.
  destruct (parse_structures fuel ∅ code len base_types complex_types) as [structs| |];
    try reflexivity.
  rewrite (parse_vars_loop_app fuel fuel structs field_name base_types complex_types
             code len 0 0 res). reflexivity.
Qed.

(** What [parse_vars] appends does not depend on what [res] holds: the call
    returns [res] followed by the names it returns for an empty [res], in its
    order, and it does not return where that call does not; the names already
    in [res] are neither removed, reordered nor compared with the new ones. *)
Theorem parse_vars_appends (fuel : nat) (res : list string) (field_name : string)
    (code : buffer) (len : Z) (base_types complex_types : list string) :
  parse_vars fuel res field_name code len base_types complex_types
  = (r ← parse_vars fuel [] field_name code len base_types complex_types;
     Ret (res ++ r)).
Proof. apply parse_vars_app. Qed.

(** ** The struct table only grows *)

Lemma map_insert_subseteq (k : string) (v : list string)
    (structs : gmap string (list string)) :
  structs ⊆ map_insert k v structs.
Proof.
  unfold map_insert. destruct (structs !! k) eqn:E; [reflexivity|].
  apply insert_subseteq. exact E.
Qed.

Lemma struct_commit_subseteq (structs t : gmap string (list string)) (code : buffer)
    (len offs : Z) (field_name : string) (field_fields : list string) :
  struct_commit structs code len offs field_name field_fields = Ret t -> structs ⊆ t.
Proof.
  unfold struct_commit. unbind. destruct (offs <? len).
  - destruct (read code offs) as [c| |]; try discriminate.
    intros [= <-]. destruct (is_char c ch_rbrace);
      [apply map_insert_subseteq | reflexivity].
  - intros [= <-]. reflexivity.
Qed.

Lemma parse_structures_loop_subseteq (n fuel : nat) (base_types complex_types : list string)
    (code : buffer) (len : Z) :
  forall (structs t : gmap string (list string)) (pcode offs : Z),
  parse_structures_loop n fuel structs base_types complex_types code len pcode offs = Ret t ->
  structs ⊆ t.
Proof.
  induction n as [|n IH]; intros structs t pcode offs; [discriminate|].
  cbn [parse_structures_loop]. unbind.
  destruct (offs <? len); [|intros [= <-]; reflexivity].
  destruct (strstr code pcode "struct") as [[p|]| |]; try discriminate;
    [|intros [= <-]; reflexivity].
  destruct (struct_header fuel code len p) as [[[field_name o]|]| |]; try discriminate;
    [|intros [= <-]; reflexivity].
  destruct (struct_body fuel fuel structs base_types complex_types code len o [])
    as [[o1 field_fields]| |]; try discriminate.
  destruct (struct_commit structs code len o1 field_name field_fields)
    as [structs1| |] eqn:Hc; try discriminate.
  apply struct_commit_subseteq in Hc. cbv zeta.
  destruct (len <=? wrap32 (o1 + 2)); [intros [= <-]; exact Hc|].
  intros H. apply IH in H. etransitivity; eassumption.
Qed.

(** [parse_structures] never removes or replaces an entry of its table: from
    any round of its loop on, a struct name that is in the table is still
    there, with the same field paths, when the call returns; so of two
    definitions of one name in a source the first one stays. *)
Theorem parse_structures_keeps_entries (n fuel : nat) (structs t : gmap string (list string))
    (code : buffer) (len pcode offs : Z) (base_types complex_types : list string)
    (name : string) (flds : list string) :
  parse_structures_loop n fuel structs base_types complex_types code len pcode offs = Ret t ->
  structs !! name = Some flds ->
  t !! name = Some flds.
Proof.
  intros H Hin. apply parse_structures_loop_subseteq in H.
  exact (lookup_weaken structs t name flds Hin H).
Qed.

Lemma parse_structures_keeps_entries_witness :
  (<[ "Outer"%string := ["f.zz"; "e"]%string ]> {[ "Inner"%string := ["zz"%string] ]}
     : gmap string (list string)) !! "Inner"%string = Some ["zz"%string].
Proof.
  refine (parse_structures_keeps_entries 10 10 {[ "Inner"%string := ["zz"%string] ]} _
            (cstring src_nested) (slen src_nested) 0 0
            std_builtin_types std_complex_builtin_types "Inner" ["zz"%string] _ _).
  - vm_compute. reflexivity.
  - vm_compute. reflexivity.
Defined.

Example parse_structures_first_definition_stays :
  parse_structures 8 ∅ (cstring "struct S { float x; }; struct S { float y; };") 45
    std_builtin_types std_complex_builtin_types
  = Ret {[ "S"%string := ["x"%string] ]}.
Proof. run. Qed.

(** ** What the scanner returns *)

Lemma nth_error_lookup {A : Type} (l : list A) (i : nat) : nth_error l i = l !! i.
Proof. revert i. induction l as [|x l IH]; intros [|i]; simpl; auto. Qed.

Lemma append_empty_r (s : string) : s +:+ EmptyString = s.
Proof. induction s as [|c s IH]; [reflexivity|]. rewrite append_cons, IH. reflexivity. Qed.

Lemma append_snoc (s t : string) (c : ascii) :
  (s +:+ String c EmptyString) +:+ t = s +:+ String c t.
Proof.
  induction s as [|a s IH]; [reflexivity|]. rewrite !append_cons, IH. reflexivity.
Qed.

Lemma read_cell (code : list ascii) (i : Z) (c : ascii) :
  read code i = Ret c <-> 0 <= i /\ code !! Z.to_nat i = Some c.
Proof.
  unfold read. rewrite nth_error_lookup. destruct (Z.ltb_spec i 0) as [Hneg|Hpos].
  - split; [discriminate | lia].
  - destruct (code !! Z.to_nat i) as [x|] eqn:E; split.
    + intros [= ->]. split; [lia|reflexivity].
    + intros [_ [= ->]]. reflexivity.
    + discriminate.
    + intros [_ H]. discriminate.
Qed.

Lemma slice_empty (code : buffer) (a : Z) : slice code a a = [].
Proof. unfold slice. rewrite Z.sub_diag. apply take_0. Qed.

Lemma slice_cons (code : buffer) (a b : Z) (c : ascii) :
  read code a = Ret c -> a < b -> slice code a b = c :: slice code (a + 1) b.
Proof.
  intros Hr Hlt. apply read_cell in Hr as [H0 Hc]. unfold slice.
  rewrite (drop_S code c (Z.to_nat a) Hc).
  replace (Z.to_nat (b - a)) with (S (Z.to_nat (b - (a + 1)))) by lia.
  replace (Z.to_nat (a + 1)) with (S (Z.to_nat a)) by lia. reflexivity.
Qed.

Section ScannerResults.
Variable code : buffer.
Variable len : Z.
Hypothesis len_32 : len < 2 ^ 32.
Hypothesis len_cells : len <= Z.of_nat (length code).

Lemma next_tok_loop_spec (n : nat) :
  forall (tok : string) (p : Z),
  0 <= p <= len -> (Z.to_nat (len - p) < n)%nat ->
  exists ptr,
    next_tok_loop n code tok p len
    = Ret (tok +:+ string_of_list_ascii (slice code p ptr), ptr)
    /\ p <= ptr <= len
    /\ Forall (fun c => is_delim c = false) (slice code p ptr)
    /\ (ptr < len -> exists c, read code ptr = Ret c /\ is_delim c = true).
Proof.
  induction n as [|n IH]; intros tok p Hp Hn; [lia|].
  cbn [next_tok_loop]. destruct (Z.ltb_spec p len) as [Hlt|Hge].
  - destruct (read_in_range code p) as [c Hc]; [lia|].
    rewrite Hc, bind_ret. destruct (is_delim c) eqn:Hd; cbn [negb].
    + exists p. rewrite slice_empty. cbn [string_of_list_ascii].
      rewrite append_empty_r. repeat split; try lia; [constructor|eauto].
    + rewrite wrap32_small by lia.
      destruct (IH (tok +:+ String c EmptyString) (p + 1)) as [ptr [Hrun [Hb [Hall Hstop]]]];
        [lia|lia|].
      exists ptr. rewrite Hrun, (slice_cons code p ptr c Hc) by lia.
      cbn [string_of_list_ascii]. rewrite append_snoc.
      repeat split; try lia; [constructor; assumption | exact Hstop].
  - exists p. rewrite slice_empty. cbn [string_of_list_ascii].
    rewrite append_empty_r. repeat split; try lia; [constructor].
Qed.

Lemma skip_spaces_spec (n : nat) :
  forall p : Z,
  0 <= p <= len -> (Z.to_nat (len - p) < n)%nat ->
  exists r,
    skip_spaces n code p len = Ret r
    /\ p <= r <= len
    /\ Forall (fun c => isspace c = true) (slice code p r)
    /\ (r < len -> exists c, read code r = Ret c /\ isspace c = false).
Proof.
  induction n as [|n IH]; intros p Hp Hn; [lia|].
  cbn [skip_spaces]. destruct (Z.ltb_spec p len) as [Hlt|Hge].
  - destruct (read_in_range code p) as [c Hc]; [lia|].
    rewrite Hc, bind_ret. destruct (isspace c) eqn:Hs.
    + rewrite wrap32_small by lia.
      destruct (IH (p + 1)) as [r [Hrun [Hb [Hall Hstop]]]]; [lia|lia|].
      exists r. rewrite Hrun, (slice_cons code p r c Hc) by lia.
      repeat split; try lia; [constructor; assumption | exact Hstop].
    + exists p. rewrite slice_empty. repeat split; try lia; [constructor|eauto].
  - exists p. rewrite slice_empty. repeat split; try lia; [constructor].
Qed.
End ScannerResults.

(** Discharges a closed side condition on numbers. *)
Ltac side :=
  first [ lia | reflexivity
        | vm_compute; first [ lia | congruence | split; congruence ] ].

Lemma slice_Forall_read (P : ascii -> Prop) (code : list ascii) (a b i : Z) (c : ascii) :
  Forall P (slice code a b) -> 0 <= a <= i -> i < b -> read code i = Ret c -> P c.
Proof.
  intros Hall Ha Hb Hr. apply read_cell in Hr as [_ Hc].
  rewrite Forall_lookup in Hall. apply (Hall (Z.to_nat (i - a))).
  unfold slice. rewrite lookup_take_lt by lia. rewrite lookup_drop.
  replace (Z.to_nat a + Z.to_nat (i - a))%nat with (Z.to_nat i) by lia. exact Hc.
Qed.

(** [next_tok] on a buffer of at least [len] cells: from an offset inside it
    the call returns (with a budget above the number of remaining
    characters) the characters from [offs] up to the returned offset, none of
    them a delimiter; the returned offset is [len] or that of a delimiter,
    which is not consumed.  At a delimiter the token is empty and the offset
    does not move. *)
Theorem next_tok_returns_token (fuel : nat) (code : buffer) (offs len : Z) :
  0 <= offs <= len -> len < 2 ^ 32 -> len <= Z.of_nat (length code) ->
  (Z.to_nat (len - offs) < fuel)%nat ->
  exists tok ptr,
    next_tok fuel code offs len = Ret (tok, ptr)
    /\ offs <= ptr <= len
    /\ list_ascii_of_string tok = slice code offs ptr
    /\ Forall (fun c => is_delim c = false) (slice code offs ptr)
    /\ (ptr < len -> exists c, read code ptr = Ret c /\ is_delim c = true).
Proof.
  intros Hoffs Hlen Hcells Hfuel. unfold next_tok.
  destruct (next_tok_loop_spec code len Hlen Hcells fuel EmptyString offs Hoffs Hfuel)
    as [ptr [Hrun [Hb [Hall Hstop]]]].
  exists (string_of_list_ascii (slice code offs ptr)), ptr.
  rewrite Hrun, list_ascii_of_string_of_list_ascii. auto.
Qed.

Lemma next_tok_returns_token_witness :
  exists tok ptr,
    next_tok 9 (cstring "float x;") 0 8 = Ret (tok, ptr)
    /\ 0 <= ptr <= 8
    /\ list_ascii_of_string tok = slice (cstring "float x;") 0 ptr
    /\ Forall (fun c => is_delim c = false) (slice (cstring "float x;") 0 ptr)
    /\ (ptr < 8 -> exists c, read (cstring "float x;") ptr = Ret c /\ is_delim c = true).
Proof.
  apply (next_tok_returns_token 9 (cstring "float x;") 0 8); side.
Defined.

(** [skip_ws] on text without a slash: from an offset inside a buffer of at
    least [len] cells ([len] below [2 ^ 32 - 1]) that holds no [/] from there
    on, the call returns (with a budget of two rounds and above the number of
    remaining characters) the offset of the first character that is not a
    blank, or [len] when there is none. *)
Theorem skip_ws_without_slash (fuel : nat) (code : buffer) (offs len : Z) :
  0 <= offs <= len -> len + 1 < 2 ^ 32 -> len <= Z.of_nat (length code) ->
  Forall (fun c => is_char c ch_slash = false) (slice code offs len) ->
  (2 <= fuel)%nat -> (Z.to_nat (len - offs) < fuel)%nat ->
  exists r,
    skip_ws fuel code offs len = Ret r
    /\ offs <= r <= len
    /\ Forall (fun c => isspace c = true) (slice code offs r)
    /\ (r < len -> exists c, read code r = Ret c /\ isspace c = false).
Proof.
  intros Hoffs Hlen1 Hcells Hslash Hfuel2 Hfuel. unfold skip_ws.
  assert (Hlen : len < 2 ^ 32) by lia.
  destruct fuel as [|[|f]]; [lia|lia|]. cbn [skip_ws_loop].
  destruct (Z.ltb_spec offs len) as [Hlt|Hge]; cbn [negb andb].
  - destruct (skip_spaces_spec code len Hlen Hcells (S (S f)) offs Hoffs Hfuel)
      as [r [Hrun [Hb [Hall Hstop]]]].
    exists r. rewrite Hrun, bind_ret.
    assert (Hc : skip_comment (S (S f)) code r len = Ret (r, true)).
    { unfold skip_comment. rewrite wrap32_small by lia.
      destruct (Z.ltb_spec (r + 1) len) as [Hr|Hr]; [|reflexivity].
      destruct Hstop as [c [Hc _]]; [lia|]. rewrite Hc, bind_ret.
      rewrite (slice_Forall_read _ code offs len r c Hslash) by (lia || assumption).
      reflexivity. }
    rewrite Hc, bind_ret. cbn [skip_ws_loop negb andb]. auto.
  - exists offs. rewrite slice_empty. repeat split; try lia. constructor.
Qed.

Lemma skip_ws_without_slash_witness :
  exists r,
    skip_ws 12 (cstring "   float x;") 0 11 = Ret r
    /\ 0 <= r <= 11
    /\ Forall (fun c => isspace c = true) (slice (cstring "   float x;") 0 r)
    /\ (r < 11 -> exists c, read (cstring "   float x;") r = Ret c /\ isspace c = false).
Proof.
  apply (skip_ws_without_slash 12 (cstring "   float x;") 0 11);
    first [ side | vm_compute; repeat constructor ].
Defined.

(** ** The scanner stays between the offset and the length *)

Section ScannerBounds.
Variable code : buffer.
Variable len : Z.
Hypothesis len_32 : len + 1 < 2 ^ 32.

Lemma skip_spaces_bounds (n : nat) :
  forall p r, 0 <= p <= len -> skip_spaces n code p len = Ret r -> p <= r <= len.
Proof.
  induction n as [|n IH]; intros p r Hp; [discriminate|].
  cbn [skip_spaces]. unbind. destruct (Z.ltb_spec p len) as [Hlt|Hge].
  - destruct (read code p) as [c| |]; try discriminate.
    destruct (isspace c).
    + rewrite wrap32_small by lia. intros H. apply IH in H; lia.
    + intros [= <-]. lia.
  - intros [= <-]. lia.
Qed.

Lemma skip_line_comment_bounds (n : nat) :
  forall p r, 0 <= p <= len -> skip_line_comment n code p len = Ret r -> p <= r <= len.
Proof.
  induction n as [|n IH]; intros p r Hp; [discriminate|].
  cbn [skip_line_comment]. unbind. destruct (Z.ltb_spec p len) as [Hlt|Hge].
  - destruct (read code p) as [c| |]; try discriminate.
    rewrite line_comment_condition, wrap32_small by lia.
    intros H. apply IH in H; lia.
  - intros [= <-]. lia.
Qed.

Lemma skip_block_comment_bounds (n : nat) :
  forall p r, 0 <= p <= len -> skip_block_comment n code p len = Ret r -> p <= r <= len.
Proof.
  induction n as [|n IH]; intros p r Hp; [discriminate|].
  cbn [skip_block_comment]. unbind. rewrite wrap32_small by lia.
  destruct (Z.ltb_spec (p + 1) len) as [Hlt|Hge]; [|intros [= <-]; lia].
  destruct (read code p) as [c| |]; try discriminate.
  destruct (negb (is_char c ch_star)).
  - destruct (read code (p + 1)) as [c1| |]; try discriminate.
    destruct (negb (is_char c1 ch_slash)); [|intros [= <-]; lia].
    intros H. apply IH in H; lia.
  - intros [= <-]. lia.
Qed.

Lemma skip_comment_bounds (fuel : nat) (p r : Z) (done : bool) :
  0 <= p <= len -> skip_comment fuel code p len = Ret (r, done) -> p <= r <= len.
Proof.
  intros Hp. unfold skip_comment. unbind. rewrite (wrap32_small (p + 1)) by lia.
  destruct (Z.ltb_spec (p + 1) len) as [Hlt|Hge]; [|intros [= <- _]; lia].
  destruct (read code p) as [c| |]; try discriminate.
  destruct (is_char c ch_slash); [|intros [= <- _]; lia].
  destruct (read code (p + 1)) as [c1| |]; try discriminate.
  destruct (is_char c1 ch_slash).
  - destruct (skip_line_comment fuel code (p + 1) len) as [p1| |] eqn:E;
      try discriminate.
    apply skip_line_comment_bounds in E; [|lia]. intros [= <- _]. lia.
  - destruct (is_char c1 ch_star); [|intros [= <- _]; lia].
    rewrite (wrap32_small (p + 2)) by lia.
    destruct (skip_block_comment fuel code (p + 2) len) as [p1| |] eqn:E;
      try discriminate.
    apply skip_block_comment_bounds in E; [|lia].
    rewrite (wrap32_small (p1 + 1)) by lia.
    destruct (Z.ltb_spec (p1 + 1) len) as [Hlt1|Hge1]; [|intros [= <- _]; lia].
    destruct (read code p1) as [a| |]; try discriminate.
    destruct (is_char a ch_star); [|intros [= <- _]; lia].
    destruct (read code (p1 + 1)) as [b| |]; try discriminate.
    destruct (is_char b ch_slash); intros [= <- _]; [rewrite wrap32_small|]; lia.
Qed.

Lemma skip_ws_loop_bounds (n fuel : nat) :
  forall p r done,
  0 <= p <= len -> skip_ws_loop n fuel code p len done = Ret r -> p <= r <= len.
Proof.
  induction n as [|n IH]; intros p r done Hp; [discriminate|].
  cbn [skip_ws_loop]. unbind.
  destruct (negb done && (p <? len)); [|intros [= <-]; lia].
  destruct (skip_spaces fuel code p len) as [p1| |] eqn:E1; try discriminate.
  apply skip_spaces_bounds in E1; [|lia].
  destruct (skip_comment fuel code p1 len) as [[p2 done']| |] eqn:E2; try discriminate.
  apply skip_comment_bounds in E2; [|lia].
  intros H. apply IH in H; lia.
Qed.
End ScannerBounds.

(** Whenever [skip_ws] returns, from an offset within [len] (itself below
    [2 ^ 32 - 1]), the offset returned is not before the one given and not
    beyond [len]: the scanner never steps back, and a caller's test
    [offs >= len] can only meet [offs = len]. *)
Theorem skip_ws_within_bounds (fuel : nat) (code : buffer) (offs len r : Z) :
  0 <= offs <= len -> len + 1 < 2 ^ 32 ->
  skip_ws fuel code offs len = Ret r ->
  offs <= r <= len.
Proof.
  intros Hoffs Hlen H. exact (skip_ws_loop_bounds code len Hlen fuel fuel offs r false Hoffs H).
Qed.

Lemma skip_ws_within_bounds_witness : 0 <= 12 <= 13.
Proof.
  apply (skip_ws_within_bounds 9 (cstring "  /* ab */  c") 0 13 12); side.
Defined.

(** ** Loops that stall at a brace *)

Section Stall.
Variable code : buffer.
Variable l o : Z.
Variable c : ascii.
Hypothesis inside : o < l.
Hypothesis at_o : read code o = Ret c.
Hypothesis no_blank : isspace c = false.
Hypothesis no_slash : is_char c ch_slash = false.
Hypothesis delim : is_delim c = true.

Lemma skip_comment_stays (fuel : nat) : skip_comment fuel code o l = Ret (o, true).
Proof.
  unfold skip_comment. destruct (wrap32 (o + 1) <? l); [|reflexivity].
  rewrite at_o, bind_ret, no_slash. reflexivity.
Qed.

Lemma skip_ws_stays (f : nat) : skip_ws (S (S f)) code o l = Ret o.
Proof.
  unfold skip_ws. cbn [skip_ws_loop].
  destruct (Z.ltb_spec o l) as [_|?]; [|lia]. cbn [negb andb].
  rewrite (skip_spaces_stays code l _ o c at_o no_blank), bind_ret.
  rewrite skip_comment_stays, bind_ret. reflexivity.
Qed.

Lemma skip_ws_short (fuel : nat) : (fuel < 2)%nat -> skip_ws fuel code o l = OutOfFuel.
Proof.
  intros H. destruct fuel as [|[|f]]; [reflexivity| |lia].
  unfold skip_ws. cbn [skip_ws_loop].
  destruct (Z.ltb_spec o l) as [_|?]; [|lia]. cbn [negb andb].
  rewrite (skip_spaces_stays code l _ o c at_o no_blank), bind_ret.
  rewrite skip_comment_stays, bind_ret. reflexivity.
Qed.

Lemma next_tok_empty (f : nat) : next_tok (S f) code o l = Ret (EmptyString, o).
Proof.
  unfold next_tok. cbn [next_tok_loop].
  destruct (Z.ltb_spec o l) as [_|?]; [|lia].
  rewrite at_o, bind_ret, delim. reflexivity.
Qed.

Hypothesis no_semi : is_char c ch_semi = false.
Hypothesis no_comma : is_char c ch_comma = false.
Hypothesis no_lbracket : is_char c ch_lbracket = false.

Lemma var_list_stalls (n fuel : nat) (struct_fld : option (list string)) :
  forall res, var_list n fuel struct_fld code l o res = OutOfFuel.
Proof.
  destruct (Nat.lt_ge_cases fuel 2) as [Hshort|Hfuel].
  - intros res. destruct n as [|n]; [reflexivity|]. cbn [var_list].
    destruct (Z.ltb_spec o l) as [_|?]; [|lia].
    rewrite (skip_ws_short fuel Hshort). reflexivity.
  - destruct fuel as [|[|f]]; [lia|lia|].
    induction n as [|n IH]; intros res; [reflexivity|]. cbn [var_list].
    destruct (Z.ltb_spec o l) as [_|?]; [|lia].
    rewrite skip_ws_stays, bind_ret.
    destruct (Z.leb_spec l o) as [?|_]; [lia|].
    rewrite at_o, bind_ret, no_semi, next_tok_empty, bind_ret.
    cbv zeta. rewrite skip_ws_stays, bind_ret.
    destruct (Z.leb_spec l o) as [?|_]; [lia|].
    unfold var_end. rewrite at_o, bind_ret, no_comma, no_lbracket, bind_ret.
    apply IH.
Qed.

Hypothesis no_rbrace : is_char c ch_rbrace = false.

Lemma struct_field_stalls (f : nat) (structs : gmap string (list string))
    (base_types complex_types : list string) (field_fields : list string) :
  exists field_fields',
    struct_field (S (S f)) structs base_types complex_types code l o field_fields
    = Ret (Next (o, field_fields')).
Proof.
  unfold struct_field. rewrite next_tok_empty, bind_ret. cbv beta iota.
  destruct (is_builtin_type EmptyString base_types complex_types).
  - rewrite skip_ws_stays, bind_ret.
    destruct (Z.leb_spec l o) as [?|_]; [lia|].
    rewrite next_tok_empty, bind_ret. eexists. reflexivity.
  - destruct (get_struct_field EmptyString structs) as [flds|].
    + rewrite skip_ws_stays, bind_ret.
      destruct (Z.leb_spec l o) as [?|_]; [lia|].
      rewrite next_tok_empty, bind_ret. eexists. reflexivity.
    + eexists. reflexivity.
Qed.

Lemma struct_body_stalls (n fuel : nat) (structs : gmap string (list string))
    (base_types complex_types : list string) :
  forall field_fields,
  struct_body n fuel structs base_types complex_types code l o field_fields = OutOfFuel.
Proof.
  destruct (Nat.lt_ge_cases fuel 2) as [Hshort|Hfuel].
  - intros ff. destruct n as [|n]; [reflexivity|]. cbn [struct_body].
    destruct (Z.ltb_spec o l) as [_|?]; [|lia].
    rewrite (skip_ws_short fuel Hshort). reflexivity.
  - destruct fuel as [|[|f]]; [lia|lia|].
    induction n as [|n IH]; intros ff; [reflexivity|]. cbn [struct_body].
    destruct (Z.ltb_spec o l) as [_|?]; [|lia].
    rewrite skip_ws_stays, bind_ret.
    destruct (Z.leb_spec l o) as [?|_]; [lia|].
    rewrite at_o, bind_ret, no_rbrace.
    destruct (struct_field_stalls f structs base_types complex_types ff) as [ff' ->].
    rewrite bind_ret. cbv beta iota. rewrite skip_ws_stays, bind_ret.
    destruct (Z.leb_spec l o) as [?|_]; [lia|].
    unfold struct_field_end. rewrite at_o, bind_ret, no_comma, no_semi, no_lbracket, bind_ret.
    apply IH.
Qed.
End Stall.

(** A brace where a name is expected stalls the loops: when the variable
    loop of [parse_vars] is at a [{] or a [}] inside the buffer, and when the
    body loop of [parse_structures] is at a [{], [next_tok] returns an empty
    token without moving, nothing after it moves the offset, and the loop
    (which pushes one more empty name each round) returns for no budget. *)
Theorem loops_stall_at_brace (code : buffer) (l o : Z) (c : ascii) :
  o < l -> read code o = Ret c ->
  (c = ch_lbrace \/ c = ch_rbrace ->
   forall n fuel struct_fld res, var_list n fuel struct_fld code l o res = OutOfFuel)
  /\ (c = ch_lbrace ->
      forall n fuel structs base_types complex_types field_fields,
      struct_body n fuel structs base_types complex_types code l o field_fields
      = OutOfFuel).
Proof.
  intros Ho Hc. split.
  - intros [->| ->] n fuel fld res;
      apply (var_list_stalls code l o _ Ho Hc); reflexivity.
  - intros -> n fuel structs bt ct ff.
    apply (struct_body_stalls code l o _ Ho Hc); reflexivity.
Qed.

Lemma loops_stall_at_brace_witness :
  var_list 1000 1000 None (cstring "uniform float {") 15 14 [] = OutOfFuel
  /\ struct_body 1000 1000 ∅ std_builtin_types std_complex_builtin_types
       (cstring "struct A { struct B { float x; } b; };") 38 20 ["struct"; "B"]%string
     = OutOfFuel.
Proof.
  split.
  - refine (proj1 (loops_stall_at_brace (cstring "uniform float {") 15 14 "{"%char _ _)
              _ 1000%nat 1000%nat None []); first [ left; reflexivity | side ].
  - refine (proj2 (loops_stall_at_brace (cstring "struct A { struct B { float x; } b; };")
                     38 20 "{"%char _ _)
              _ 1000%nat 1000%nat ∅ std_builtin_types std_complex_builtin_types
              ["struct"; "B"]%string); side.
Defined.

(** The two sources of the witness, through [load]: after 40 rounds of every
    loop the call has not returned. *)
Example load_stalls_at_brace :
  load 40 gl_compiled (cstring "uniform float {") 15 new_shader = OutOfFuel
  /\ load 40 gl_compiled (cstring "struct A { struct B { float x; } b; };") 38 new_shader
     = OutOfFuel.
Proof. split; run. Qed.

(** ** The registry of builtin types *)

Lemma is_builtin_type_spec (s : string) (base_types complex_types : list string) :
  is_builtin_type s base_types complex_types = true
  <-> In s base_types \/ exists f, In f complex_types /\ occurs_in f s.
Proof.
  unfold is_builtin_type. rewrite orb_true_iff, !existsb_exists. split.
  - intros [[t [Hin Heq]]|[f [Hin Hocc]]].
    + left. apply String.eqb_eq in Heq. subst t. exact Hin.
    + right. exists f. split; [exact Hin|]. apply str_contains_occurs. exact Hocc.
  - intros [Hin|[f [Hin Hocc]]].
    + left. exists s. split; [exact Hin|]. apply String.eqb_refl.
    + right. exists f. split; [exact Hin|]. apply str_contains_occurs. exact Hocc.
Qed.

(** A type name is builtin exactly when it is one of the base types or holds
    an occurrence of one of the complex types. *)
Theorem is_builtin_type_iff (s : string) (base_types complex_types : list string) :
  is_builtin_type s base_types complex_types = true
  <-> In s base_types \/ exists f, In f complex_types /\ occurs_in f s.
Proof. apply is_builtin_type_spec. Qed.

(** [register_builtin_type] adds and never removes: after registering [t] as
    a base type the builtin names are those of before and [t] itself; after
    registering it as a complex type they are those of before and every name
    that holds [t] (every name at all when [t] is empty).
    [import_std_builtin_types] forgets what was registered: the builtin names
    are then those of the standard lists. *)
Theorem register_builtin_type_effect (t s : string) (st : shader) :
  is_builtin_type s (m_builtin_types (register_builtin_type t false st))
    (m_complex_builtin_types (register_builtin_type t false st))
  = is_builtin_type s (m_builtin_types st) (m_complex_builtin_types st) || String.eqb s t
  /\ is_builtin_type s (m_builtin_types (register_builtin_type t true st))
       (m_complex_builtin_types (register_builtin_type t true st))
     = is_builtin_type s (m_builtin_types st) (m_complex_builtin_types st)
       || str_contains t s
  /\ is_builtin_type s (m_builtin_types (register_builtin_type "" true st))
       (m_complex_builtin_types (register_builtin_type "" true st)) = true
  /\ is_builtin_type s (m_builtin_types (import_std_builtin_types st))
       (m_complex_builtin_types (import_std_builtin_types st))
     = is_builtin_type s std_builtin_types std_complex_builtin_types.
Proof.
  unfold is_builtin_type. cbn [register_builtin_type negb set_builtin_types
                                 m_builtin_types m_complex_builtin_types].
  rewrite !existsb_app. cbn [existsb]. rewrite !orb_false_r.
  split; [|split; [|split]].
  - destruct (existsb (String.eqb s) (m_builtin_types st)),
      (existsb (fun t0 => str_contains t0 s) (m_complex_builtin_types st)),
      (String.eqb s t); reflexivity.
  - rewrite orb_assoc. reflexivity.
  - replace (str_contains "" s) with true by (destruct s; reflexivity).
    rewrite !orb_true_r. reflexivity.
  - reflexivity.
Qed.

(** A name that holds a complex builtin type is never looked up in the
    struct table: whatever the table holds for it, the declaration is read as
    one of a builtin type, so its variables yield bare names.  With the
    standard registry this is so of every struct whose name holds [vec],
    [mat], [image] or [sampler]. *)
Theorem builtin_name_hides_struct (tok f : string) (structs : gmap string (list string))
    (base_types complex_types : list string) :
  In f complex_types -> occurs_in f tok ->
  classify tok structs base_types complex_types = Some None.
Proof.
  intros Hin Hocc. unfold classify.
  replace (is_builtin_type tok base_types complex_types) with true; [reflexivity|].
  symmetry. apply is_builtin_type_spec. right. exists f. split; assumption.
Qed.

Lemma builtin_name_hides_struct_witness :
  classify "material_t" {[ "material_t"%string := ["shininess"%string] ]}
    std_builtin_types std_complex_builtin_types = Some None.
Proof.
  apply (builtin_name_hides_struct "material_t" "mat").
  - vm_compute. tauto.
  - apply str_contains_occurs. reflexivity.
Defined.

(** The same through [parse_vars]: the struct is in the table, and the
    variable yields its bare name. *)
Example parse_vars_material_t :
  parse_vars 12 [] "uniform"
    (cstring "struct material_t { float shininess; }; uniform material_t m;") 61
    std_builtin_types std_complex_builtin_types
  = Ret ["m"%string]
  /\ parse_structures 12 ∅
       (cstring "struct material_t { float shininess; }; uniform material_t m;") 61
       std_builtin_types std_complex_builtin_types
     = Ret {[ "material_t"%string := ["shininess"%string] ]}.
Proof. split; run. Qed.

(** ** [load], [finalize] and [unload] together *)

Lemma parse_vars_app_inv (fuel : nat) (res pu : list string) (field_name : string)
    (code : buffer) (len : Z) (base_types complex_types : list string) :
  parse_vars fuel res field_name code len base_types complex_types = Ret pu ->
  exists names,
    parse_vars fuel [] field_name code len base_types complex_types = Ret names
    /\ pu = res ++ names.
Proof.
  rewrite parse_vars_app. unbind.
  destruct (parse_vars fuel [] field_name code len base_types complex_types)
    as [names| |]; try discriminate.
  intros [= <-]. exists names. split; reflexivity.
Qed.

Lemma load_inv (fuel : nat) (glc : gl_compile) (code : buffer) (len : Z)
    (st st1 : shader) (b : bool) :
  load fuel glc code len st = Ret (b, st1) ->
  exists us ats,
    parse_vars fuel [] "uniform" code len (m_builtin_types st) (m_complex_builtin_types st)
    = Ret us
    /\ parse_vars fuel [] "attribute" code len (m_builtin_types st)
         (m_complex_builtin_types st) = Ret ats
    /\ b = negb (gl_compile_status glc =? GL_FALSE)
    /\ m_pending_uniforms st1 = m_pending_uniforms st ++ us
    /\ m_pending_attributes st1 = m_pending_attributes st ++ ats
    /\ m_builtin_types st1 = m_builtin_types st
    /\ m_complex_builtin_types st1 = m_complex_builtin_types st
    /\ m_shaders st1 = (if b then m_shaders st ++ [gl_shader glc] else m_shaders st).
Proof.
  unfold load. unbind.
  destruct (parse_vars fuel (m_pending_uniforms st) "uniform" code len
              (m_builtin_types st) (m_complex_builtin_types st)) as [pu| |] eqn:Hu;
    try discriminate.
  destruct (parse_vars fuel (m_pending_attributes st) "attribute" code len
              (m_builtin_types st) (m_complex_builtin_types st)) as [pa| |] eqn:Ha;
    try discriminate.
  apply parse_vars_app_inv in Hu as [us [Hus ->]].
  apply parse_vars_app_inv in Ha as [ats [Hats ->]].
  cbv zeta. intros H. exists us, ats.
  destruct (negb (gl_compile_status glc =? GL_FALSE)); injection H as <- <-;
    repeat split; assumption.
Qed.

(** After a [load] that returned [true], [finalize] gives a handle to exactly
    the names that were pending before the [load] and the names found in its
    source: each reads as the location the library gave, every other path
    reads as 0. *)
Theorem load_then_finalize (fuel : nat) (glc : gl_compile) (gl : gl_link)
    (code : buffer) (len : Z) (st st1 : shader) :
  load fuel glc code len st = Ret (true, st1) ->
  exists us ats,
    parse_vars fuel [] "uniform" code len (m_builtin_types st) (m_complex_builtin_types st)
    = Ret us
    /\ parse_vars fuel [] "attribute" code len (m_builtin_types st)
         (m_complex_builtin_types st) = Ret ats
    /\ (forall name,
           fst (get_uniform name (snd (finalize gl st1)))
           = if decide (name ∈ m_pending_uniforms st ++ us)
             then wrap32 (gl_uniform_location gl name) else 0)
    /\ (forall name,
           fst (get_attribute name (snd (finalize gl st1)))
           = if decide (name ∈ m_pending_attributes st ++ ats)
             then wrap32 (gl_attrib_location gl name) else 0)
    /\ fst (finalize gl st1) = negb (gl_link_status gl =? GL_FALSE).
Proof.
  intros H. apply load_inv in H as [us [ats [Hus [Hats [_ [Hpu [Hpa [_ [_ Hsh]]]]]]]]].
  assert (Hne : m_shaders st1 <> []).
  { rewrite Hsh. destruct (m_shaders st); discriminate. }
  destruct (finalize_lookup gl st1 Hne) as [Hu [Ha [_ [_ [_ [_ Hflag]]]]]].
  exists us, ats. rewrite <- Hpu, <- Hpa. auto.
Qed.

Lemma load_then_finalize_witness :
  exists us ats,
    parse_vars 9 [] "uniform" (cstring src_two_names) 37
      std_builtin_types std_complex_builtin_types = Ret us
    /\ parse_vars 9 [] "attribute" (cstring src_two_names) 37
         std_builtin_types std_complex_builtin_types = Ret ats
    /\ (forall name,
           fst (get_uniform name
                  (snd (finalize gl_linked
                          (mk_shader ∅ ∅ std_builtin_types std_complex_builtin_types
                             ["a"; "b"]%string ["p"]%string [1] [] 0))))
           = if decide (name ∈ [] ++ us)
             then wrap32 (gl_uniform_location gl_linked name) else 0)
    /\ (forall name,
           fst (get_attribute name
                  (snd (finalize gl_linked
                          (mk_shader ∅ ∅ std_builtin_types std_complex_builtin_types
                             ["a"; "b"]%string ["p"]%string [1] [] 0))))
           = if decide (name ∈ [] ++ ats)
             then wrap32 (gl_attrib_location gl_linked name) else 0)
    /\ fst (finalize gl_linked
              (mk_shader ∅ ∅ std_builtin_types std_complex_builtin_types
                 ["a"; "b"]%string ["p"]%string [1] [] 0))
       = negb (gl_link_status gl_linked =? GL_FALSE).
Proof.
  apply (load_then_finalize 9 gl_compiled gl_linked (cstring src_two_names) 37 new_shader).
  vm_compute. reflexivity.
Defined.

(** Names of a source whose compilation failed are resolved all the same:
    when a [load] returned [false] and a later [load] on the object returned
    [true], [finalize] gives every uniform and attribute name found in the
    first source the location the library answers for it. *)
Theorem failed_load_names_are_resolved (fuel fuel' : nat) (glc glc' : gl_compile)
    (gl : gl_link) (code code' : buffer) (len len' : Z) (st st1 st2 : shader) :
  load fuel glc code len st = Ret (false, st1) ->
  load fuel' glc' code' len' st1 = Ret (true, st2) ->
  exists us ats,
    parse_vars fuel [] "uniform" code len (m_builtin_types st) (m_complex_builtin_types st)
    = Ret us
    /\ parse_vars fuel [] "attribute" code len (m_builtin_types st)
         (m_complex_builtin_types st) = Ret ats
    /\ (forall name, name ∈ us ->
           fst (get_uniform name (snd (finalize gl st2)))
           = wrap32 (gl_uniform_location gl name))
    /\ (forall name, name ∈ ats ->
           fst (get_attribute name (snd (finalize gl st2)))
           = wrap32 (gl_attrib_location gl name)).
Proof.
  intros H1 H2.
  apply load_inv in H1 as [us [ats [Hus [Hats [_ [Hpu [Hpa _]]]]]]].
  apply load_inv in H2 as [us' [ats' [_ [_ [_ [Hpu' [Hpa' [_ [_ Hsh]]]]]]]]].
  assert (Hne : m_shaders st2 <> []).
  { rewrite Hsh. destruct (m_shaders st1); discriminate. }
  destruct (finalize_lookup gl st2 Hne) as [Hu [Ha _]].
  exists us, ats. split; [exact Hus|]. split; [exact Hats|].
  split; intros name Hin.
  - rewrite Hu, Hpu', Hpu. destruct (decide _) as [_|Hn]; [reflexivity|].
    exfalso. apply Hn. rewrite !elem_of_app. auto.
  - rewrite Ha, Hpa', Hpa. destruct (decide _) as [_|Hn]; [reflexivity|].
    exfalso. apply Hn. rewrite !elem_of_app. auto.
Qed.

Lemma failed_load_names_are_resolved_witness :
  exists us ats,
    parse_vars 9 [] "uniform" (cstring src_two_names) 37
      std_builtin_types std_complex_builtin_types = Ret us
    /\ parse_vars 9 [] "attribute" (cstring src_two_names) 37
         std_builtin_types std_complex_builtin_types = Ret ats
    /\ (forall name, name ∈ us ->
           fst (get_uniform name (snd (finalize gl_linked shader_after_second_load)))
           = wrap32 (gl_uniform_location gl_linked name))
    /\ (forall name, name ∈ ats ->
           fst (get_attribute name (snd (finalize gl_linked shader_after_second_load)))
           = wrap32 (gl_attrib_location gl_linked name)).
Proof.
  apply (failed_load_names_are_resolved 9 9 gl_not_compiled gl_compiled gl_linked
           (cstring src_two_names) (cstring "void main() { }") 37 15
           new_shader shader_after_failed_load shader_after_second_load);
    vm_compute; reflexivity.
Defined.

Lemma load_tables (fuel : nat) (glc : gl_compile) (code : buffer) (len : Z)
    (st st1 : shader) (b : bool) :
  load fuel glc code len st = Ret (b, st1) ->
  m_uniforms st1 = m_uniforms st /\ m_attributes st1 = m_attributes st
  /\ m_program st1 = m_program st.
Proof.
  unfold load. unbind.
  destruct (parse_vars fuel (m_pending_uniforms st) "uniform" code len
              (m_builtin_types st) (m_complex_builtin_types st)) as [pu| |];
    try discriminate.
  destruct (parse_vars fuel (m_pending_attributes st) "attribute" code len
              (m_builtin_types st) (m_complex_builtin_types st)) as [pa| |];
    try discriminate.
  cbv zeta. destruct (negb (gl_compile_status glc =? GL_FALSE));
    intros [= <- <-]; repeat split; reflexivity.
Qed.

(** [unload] forgets the names and the handles and keeps the registry: after
    it, a [load] that returns [true] leaves every path reading as 0 until
    [finalize], and [finalize] then gives a handle to exactly the names found
    in the loaded source, classified with the builtin types registered before
    the [unload]. *)
Theorem unload_then_load_finalize (fuel : nat) (glc : gl_compile) (gl : gl_link)
    (code : buffer) (len : Z) (st st1 : shader) :
  load fuel glc code len (unload st) = Ret (true, st1) ->
  exists us ats,
    parse_vars fuel [] "uniform" code len (m_builtin_types st) (m_complex_builtin_types st)
    = Ret us
    /\ parse_vars fuel [] "attribute" code len (m_builtin_types st)
         (m_complex_builtin_types st) = Ret ats
    /\ (forall name, fst (get_uniform name st1) = 0 /\ fst (get_attribute name st1) = 0)
    /\ (forall name,
           fst (get_uniform name (snd (finalize gl st1)))
           = if decide (name ∈ us) then wrap32 (gl_uniform_location gl name) else 0)
    /\ (forall name,
           fst (get_attribute name (snd (finalize gl st1)))
           = if decide (name ∈ ats) then wrap32 (gl_attrib_location gl name) else 0).
Proof.
  intros H. pose proof (load_tables _ _ _ _ _ _ _ H) as [Htu [Hta _]].
  apply load_inv in H as [us [ats [Hus [Hats [_ [Hpu [Hpa [_ [_ Hsh]]]]]]]]].
  assert (Hne : m_shaders st1 <> []).
  { rewrite Hsh. destruct (m_shaders (unload st)); discriminate. }
  destruct (finalize_lookup gl st1 Hne) as [Hu [Ha _]].
  exists us, ats. split; [exact Hus|]. split; [exact Hats|]. split; [|split].
  - intros name. unfold get_uniform, get_attribute. cbn [fst].
    rewrite Htu, Hta. cbn [unload m_uniforms m_attributes].
    rewrite !lookup_empty. split; reflexivity.
  - intros name. rewrite Hu, Hpu. reflexivity.
  - intros name. rewrite Ha, Hpa. reflexivity.
Qed.

Lemma unload_then_load_finalize_witness :
  exists us ats,
    parse_vars 9 [] "uniform" (cstring src_two_names) 37
      (m_builtin_types shader_pending) (m_complex_builtin_types shader_pending) = Ret us
    /\ parse_vars 9 [] "attribute" (cstring src_two_names) 37
         (m_builtin_types shader_pending) (m_complex_builtin_types shader_pending)
       = Ret ats
    /\ (forall name,
           fst (get_uniform name shader_after_second_unload) = 0
           /\ fst (get_attribute name shader_after_second_unload) = 0)
    /\ (forall name,
           fst (get_uniform name (snd (finalize gl_linked shader_after_second_unload)))
           = if decide (name ∈ us) then wrap32 (gl_uniform_location gl_linked name) else 0)
    /\ (forall name,
           fst (get_attribute name (snd (finalize gl_linked shader_after_second_unload)))
           = if decide (name ∈ ats) then wrap32 (gl_attrib_location gl_linked name) else 0).
Proof.
  apply (unload_then_load_finalize 9 gl_compiled gl_linked (cstring src_two_names) 37
           shader_pending shader_after_second_unload).
  vm_compute. reflexivity.
Defined.

Lemma not_in_msg_no_shaders : NUL ∉ msg_no_shaders.
Proof.
  intros H. apply list_elem_of_In in H. vm_compute in H.
  repeat (destruct H as [H|H]; [discriminate H|]). exact H.
Qed.

(** [finalize] on an object with no compiled shader returns [false] and
    changes nothing but the log: the names stay pending, the tables and the
    program are as before.  The text it appends to the log has no
    terminator, so the cells [get_log] hands out then hold no NUL unless the
    log held one before. *)
Theorem finalize_without_shaders (gl : gl_link) (st : shader) :
  m_shaders st = [] ->
  finalize gl st = (false, push_log st msg_no_shaders)
  /\ get_log (snd (finalize gl st)) = Some (m_log_buffer st ++ msg_no_shaders)
  /\ (NUL ∉ m_log_buffer st -> NUL ∉ m_log_buffer st ++ msg_no_shaders).
Proof.
  intros H. unfold finalize. rewrite H. cbn [snd]. split; [reflexivity|]. split.
  - unfold get_log, push_log. cbn [m_log_buffer].
    destruct (m_log_buffer st); reflexivity.
  - intros Hn Hin. apply elem_of_app in Hin as [Hin|Hin]; [exact (Hn Hin)|].
    exact (not_in_msg_no_shaders Hin).
Qed.

Lemma finalize_without_shaders_witness :
  finalize gl_linked (unload shader_pending)
  = (false, push_log (unload shader_pending) msg_no_shaders)
  /\ get_log (snd (finalize gl_linked (unload shader_pending)))
     = Some (m_log_buffer (unload shader_pending) ++ msg_no_shaders)
  /\ (NUL ∉ m_log_buffer (unload shader_pending) ->
      NUL ∉ m_log_buffer (unload shader_pending) ++ msg_no_shaders).
Proof.
  apply (finalize_without_shaders gl_linked (unload shader_pending)). reflexivity.
Defined.

(** The log after a [finalize] that found a compiled shader: a link that
    succeeded empties it, whatever earlier calls had logged, and [get_log]
    gives no pointer; a link that failed leaves the earlier log followed by
    the warning about a program still active (when there was one), then
    [LNK:], the library's info log and a line feed. *)
Theorem finalize_log (gl : gl_link) (st : shader) :
  m_shaders st <> [] ->
  (gl_link_status gl <> GL_FALSE -> get_log (snd (finalize gl st)) = None)
  /\ (gl_link_status gl = GL_FALSE ->
      get_log (snd (finalize gl st))
      = Some (m_log_buffer st
              ++ (if m_program st =? 0 then [] else msg_still_active (m_program st))
              ++ list_ascii_of_string "LNK:" ++ gl_link_log gl ++ [ch_lf])).
Proof.
  intros Hne. unfold finalize. destruct (m_shaders st) as [|s ss]; [congruence|].
  cbv zeta. rewrite foldl_add_uniform, foldl_add_attribute. split; intros Hst.
  - apply Z.eqb_neq in Hst. rewrite Hst. reflexivity.
  - apply Z.eqb_eq in Hst. rewrite Hst. cbn [negb snd].
    unfold get_log. cbn [m_log_buffer clear_pending_and_shaders].
    destruct (m_program st =? 0); cbn [negb push_log set_program clear_tables m_log_buffer];
      rewrite <- ?app_assoc; cbn [app];
      destruct (m_log_buffer st); reflexivity.
Qed.

Lemma finalize_log_witness :
  get_log (snd (finalize gl_linked shader_after_second_load)) = None
  /\ get_log (snd (finalize gl_link_failed shader_after_second_load))
     = Some (m_log_buffer shader_after_second_load
             ++ [] ++ list_ascii_of_string "LNK:" ++ gl_link_log gl_link_failed ++ [ch_lf]).
Proof.
  split.
  - apply (proj1 (finalize_log gl_linked shader_after_second_load ltac:(discriminate)));
      discriminate.
  - apply (proj2 (finalize_log gl_link_failed shader_after_second_load ltac:(discriminate)));
      reflexivity.
Defined.

(** What a [load] that returns does to the object: the names found in the
    source are appended to the pending sequences, after those already there
    and without looking for duplicates; the flag is the compile status; the
    tables of handles, the program and the registry are as before, so no new
    name reads as a handle until [finalize]. *)
Theorem load_effect (fuel : nat) (glc : gl_compile) (code : buffer) (len : Z)
    (st st1 : shader) (b : bool) :
  load fuel glc code len st = Ret (b, st1) ->
  exists us ats,
    parse_vars fuel [] "uniform" code len (m_builtin_types st) (m_complex_builtin_types st)
    = Ret us
    /\ parse_vars fuel [] "attribute" code len (m_builtin_types st)
         (m_complex_builtin_types st) = Ret ats
    /\ b = negb (gl_compile_status glc =? GL_FALSE)
    /\ m_pending_uniforms st1 = m_pending_uniforms st ++ us
    /\ m_pending_attributes st1 = m_pending_attributes st ++ ats
    /\ (forall name,
           fst (get_uniform name st1) = fst (get_uniform name st)
           /\ fst (get_attribute name st1) = fst (get_attribute name st))
    /\ m_builtin_types st1 = m_builtin_types st
    /\ m_complex_builtin_types st1 = m_complex_builtin_types st
    /\ m_program st1 = m_program st.
Proof.
  intros H. pose proof (load_tables _ _ _ _ _ _ _ H) as [Htu [Hta Hp]].
  apply load_inv in H as [us [ats [Hus [Hats [Hb [Hpu [Hpa [Hbt [Hct _]]]]]]]]].
  exists us, ats. repeat split; try assumption;
    unfold get_uniform, get_attribute; cbn [fst]; rewrite ?Htu, ?Hta; reflexivity.
Qed.

Lemma load_effect_witness :
  exists us ats,
    parse_vars 9 [] "uniform" (cstring src_two_names) 37
      (m_builtin_types shader_pending) (m_complex_builtin_types shader_pending) = Ret us
    /\ parse_vars 9 [] "attribute" (cstring src_two_names) 37
         (m_builtin_types shader_pending) (m_complex_builtin_types shader_pending)
       = Ret ats
    /\ false = negb (gl_compile_status gl_not_compiled =? GL_FALSE)
    /\ m_pending_uniforms shader_pending_after_load = m_pending_uniforms shader_pending ++ us
    /\ m_pending_attributes shader_pending_after_load
       = m_pending_attributes shader_pending ++ ats
    /\ (forall name,
           fst (get_uniform name shader_pending_after_load)
           = fst (get_uniform name shader_pending)
           /\ fst (get_attribute name shader_pending_after_load)
              = fst (get_attribute name shader_pending))
    /\ m_builtin_types shader_pending_after_load = m_builtin_types shader_pending
    /\ m_complex_builtin_types shader_pending_after_load
       = m_complex_builtin_types shader_pending
    /\ m_program shader_pending_after_load = m_program shader_pending.
Proof.
  apply (load_effect 9 gl_not_compiled (cstring src_two_names) 37 shader_pending
           shader_pending_after_load false).
  vm_compute. reflexivity.
Defined.

(** The usage note of the header, from the source text to the handle. *)
Example header_note_end_to_end :
  match load_string 10 gl_compiled src_header new_shader with
  | Ret (b, st1) =>
      Some (b, fst (get_uniform "test.other.f.a2"
                      (snd (finalize (mk_gl_link 5 1 [] (fun _ => 0)
                                        (fun name => if String.eqb name "test.other.f.a2"
                                                     then 6 else 1)) st1))))
  | _ => None
  end = Some (true, 6).
Proof. run. Qed.

(** ** Setting a value by name *)

Lemma to_GLint_wrap32 (z : Z) : -2 ^ 31 <= z < 2 ^ 31 -> to_GLint (wrap32 z) = z.
Proof.
  intros Hz. unfold to_GLint, wrap32. rewrite Z.mod_mod by lia.
  destruct (Z.ltb_spec z 0) as [Hneg|Hpos].
  - replace (z mod 2 ^ 32) with (z + 2 ^ 32).
    + destruct (Z.ltb_spec (z + 2 ^ 32) (2 ^ 31)); lia.
    + apply (Z.mod_unique _ _ (-1)); lia.
  - rewrite Z.mod_small by lia. destruct (Z.ltb_spec z (2 ^ 31)); lia.
Qed.

(** After a [finalize] that found a compiled shader, [u_s32], [u_tex] and
    [u_u32] called with a name that was pending pass the library the
    location it answered for that name, -1 included (a name the linker does
    not know is set nowhere); called with any other name they set
    location 0. *)
Theorem set_by_name_location (gl : gl_link) (st : shader) (name : string) (v : Z) :
  m_shaders st <> [] ->
  -2 ^ 31 <= gl_uniform_location gl name < 2 ^ 31 ->
  u_s32 name v (snd (finalize gl st))
  = glUniform1i (if decide (name ∈ m_pending_uniforms st)
                 then gl_uniform_location gl name else 0) v
  /\ u_tex name v (snd (finalize gl st))
     = glUniform1i (if decide (name ∈ m_pending_uniforms st)
                    then gl_uniform_location gl name else 0) v
  /\ u_u32 name v (snd (finalize gl st))
     = glUniform1ui (if decide (name ∈ m_pending_uniforms st)
                     then gl_uniform_location gl name else 0) v.
Proof.
  intros Hne Hloc. unfold u_s32, u_tex, u_u32.
  destruct (finalize_lookup gl st Hne) as [Hu _]. rewrite Hu.
  destruct (decide (name ∈ m_pending_uniforms st));
    [rewrite to_GLint_wrap32 by exact Hloc|]; repeat split; reflexivity.
Qed.

Lemma set_by_name_location_witness :
  u_s32 "b" 0 (snd (finalize gl_linked shader_pending)) = glUniform1i (-1) 0
  /\ u_s32 "a" 0 (snd (finalize gl_linked shader_pending)) = glUniform1i 4 0
  /\ u_s32 "zz" 0 (snd (finalize gl_linked shader_pending)) = glUniform1i 0 0.
Proof.
  split; [|split].
  - refine (proj1 (set_by_name_location gl_linked shader_pending "b" 0 _ _)); side.
  - refine (proj1 (set_by_name_location gl_linked shader_pending "a" 0 _ _)); side.
  - refine (proj1 (set_by_name_location gl_linked shader_pending "zz" 0 _ _)); side.
Defined.
